(** * MoneyPrinter, [gpt.py]: script, search-term and metadata generators

    A shallow embedding of the three functions of [gpt.py]
    ([generate_script], [get_search_terms], [generate_metadata]) together
    with the library operations they call ([str.replace], [str.strip],
    [str.join], [re.sub], [re.findall], [json.loads]), and the properties
    of the specification stated over that embedding.

    Python strings are sequences of Unicode code points; the completion
    service is an external collaborator and is a parameter of the model. *)

From Stdlib Require Import List NArith ZArith Lia Bool String Ascii DecimalString.
Import ListNotations.
Local Open Scope N_scope.

(** ** Strings *)

(** A Python [str]: a sequence of code points. *)
Definition char := N.
Definition pystr := list char.

(** An ASCII literal as a [pystr]. *)
Fixpoint str (s : string) : pystr :=
  match s with
  | EmptyString => []
  | String a t => N_of_ascii a :: str t
  end.

Definition NL : char := 10.      (* line feed *)
Definition DQ : char := 34.      (* double quote *)
Definition quoted (s : pystr) : pystr := DQ :: s ++ [DQ].

(** The lines of a triple-quoted literal, joined by line feeds. *)
Fixpoint lines (l : list pystr) : pystr :=
  match l with
  | [] => []
  | [x] => x
  | x :: t => x ++ NL :: lines t
  end.

(** [s.replace(c, "")] for a one-character [c]. *)
Definition remove_char (c : char) (s : pystr) : pystr :=
  filter (fun x => negb (x =? c)) s.

(** [str.isspace] on one code point, as CPython decides it. *)
Definition isspace (c : char) : bool :=
  ((9 <=? c) && (c <=? 13)) || ((28 <=? c) && (c <=? 32))
  || (c =? 133) || (c =? 160) || (c =? 5760)
  || ((8192 <=? c) && (c <=? 8202))
  || (c =? 8232) || (c =? 8233) || (c =? 8239) || (c =? 8287)
  || (c =? 12288).

Fixpoint lstrip (s : pystr) : pystr :=
  match s with
  | c :: t => if isspace c then lstrip t else s
  | [] => []
  end.

Definition rstrip (s : pystr) : pystr := rev (lstrip (rev s)).

(** [s.strip()] *)
Definition strip (s : pystr) : pystr := rstrip (lstrip s).

(** ** The two regular expressions

    Both patterns are an opening bracket, [.*], and the closing bracket:
    square brackets in one, parentheses in the other.  The dot matches
    every character but a line feed, and the star is greedy. *)

(** Length of the longest prefix of [t] that the dot-star followed by [c]
    matches: up to and including the last [c] before the first line
    feed. *)
Fixpoint match_len (c : char) (t : pystr) : option nat :=
  match t with
  | [] => None
  | x :: t' =>
      if x =? NL then None
      else match match_len c t' with
           | Some k => Some (S k)
           | None => if x =? c then Some 1%nat else None
           end
  end.

(** What a left-to-right scan for non-overlapping matches sees. *)
Inductive piece :=
| Lit (x : char)          (* a character outside every match *)
| Match (m : pystr).      (* one match *)

(** [skip] counts the characters still inside the current match. *)
Fixpoint scan (o c : char) (skip : nat) (s : pystr) : list piece :=
  match s with
  | [] => []
  | x :: t =>
      match skip with
      | S k => scan o c k t
      | O =>
          if x =? o then
            match match_len c t with
            | Some k => Match (x :: firstn k t) :: scan o c k t
            | None => Lit x :: scan o c 0 t
            end
          else Lit x :: scan o c 0 t
      end
  end.

Fixpoint literals (l : list piece) : pystr :=
  match l with
  | [] => []
  | Lit x :: t => x :: literals t
  | Match _ :: t => literals t
  end.

Fixpoint matches (l : list piece) : list pystr :=
  match l with
  | [] => []
  | Lit _ :: t => matches t
  | Match m :: t => m :: matches t
  end.

(** [re.sub(pattern, '', s)] *)
Definition re_sub (o c : char) (s : pystr) : pystr := literals (scan o c 0 s).

(** [re.findall(pattern, s)] *)
Definition re_findall (o c : char) (s : pystr) : list pystr :=
  matches (scan o c 0 s).

Definition LBRACK : char := 91.
Definition RBRACK : char := 93.
Definition LPAREN : char := 40.
Definition RPAREN : char := 41.
Definition STAR : char := 42.
Definition HASH : char := 35.
Definition SPACE : char := 32.

(** ** Values and exceptions *)

(** The Python objects the module handles: what [json.loads] can return
    and what [re.findall] returns.  A float is kept as the literal it was
    read from; nothing below looks at its numeric value. *)
#[warnings="-register-all"]
Inductive pyobj :=
| PNone
| PBool (b : bool)
| PInt (z : Z)
| PFloat (literal : pystr)
| PStr (s : pystr)
| PList (l : list pyobj)
| PDict (d : list (pystr * pyobj)).

(** Exceptions, by class.  [JSONDecodeError] and [ValueError] are what
    [json.loads] raises on a [str]; [RecursionError] is what the decoder
    raises when its recursion bound is used up, which the bound that
    [decode] gives it excludes (the interpreter's own limit on nesting
    is left out); [ServiceError] stands for whatever the completion call
    raises. *)
Inductive exn :=
| TypeError
| JSONDecodeError
| ValueError
| RecursionError
| ServiceError (msg : pystr).

Inductive result (A : Type) :=
| Ok (a : A)
| Raise (e : exn).
Arguments Ok {A} a.
Arguments Raise {A} e.

(** ** [str.join] *)

(** What iterating over a value yields; numbers, booleans and [None] are
    not iterable. *)
Definition iterate (v : pyobj) : result (list pyobj) :=
  match v with
  | PList l => Ok l
  | PStr s => Ok (map (fun c => PStr [c]) s)
  | PDict d => Ok (map (fun kv => PStr (fst kv)) d)
  | _ => Raise TypeError
  end.

(** Joining needs every item to be a [str]. *)
Fixpoint join_items (sep : pystr) (l : list pyobj) : result pystr :=
  match l with
  | [] => Ok []
  | PStr s :: t =>
      match t with
      | [] => Ok s
      | _ => match join_items sep t with
             | Ok r => Ok (s ++ sep ++ r)
             | Raise e => Raise e
             end
      end
  | _ => Raise TypeError
  end.

(** [sep.join(v)] *)
Definition str_join (sep : pystr) (v : pyobj) : result pystr :=
  match iterate v with
  | Ok l => join_items sep l
  | Raise e => Raise e
  end.

(** ** [json.loads]

    The decoder of CPython's [json] package with its default settings
    (strict mode, no hooks).  Every decoding error is a
    [JSONDecodeError]; its message and position are left out. *)

Definition BACKSLASH : char := 92.

Definition is_ws (c : char) : bool :=
  (c =? 32) || (c =? 9) || (c =? 10) || (c =? 13).

Fixpoint skip_ws (s : pystr) : pystr :=
  match s with
  | c :: t => if is_ws c then skip_ws t else s
  | [] => []
  end.

Definition is_digit (c : char) : bool := (48 <=? c) && (c <=? 57).

Definition hexval (c : char) : option N :=
  if is_digit c then Some (c - 48)
  else if (97 <=? c) && (c <=? 102) then Some (c - 87)
  else if (65 <=? c) && (c <=? 70) then Some (c - 55)
  else None.

Definition hex4 (a b c d : char) : option N :=
  match hexval a, hexval b, hexval c, hexval d with
  | Some x, Some y, Some z, Some w => Some (((x * 16 + y) * 16 + z) * 16 + w)
  | _, _, _, _ => None
  end.

Definition is_high_surrogate (u : N) : bool := (55296 <=? u) && (u <=? 56319).
Definition is_low_surrogate (u : N) : bool := (56320 <=? u) && (u <=? 57343).
Definition join_surrogates (hi lo : N) : N :=
  65536 + (hi - 55296) * 1024 + (lo - 56320).

(** The one-character escapes after a backslash. *)
Definition unescape (e : char) : option char :=
  if e =? DQ then Some DQ
  else if e =? BACKSLASH then Some BACKSLASH
  else if e =? 47 then Some 47          (* / *)
  else if e =? 98 then Some 8           (* b *)
  else if e =? 102 then Some 12         (* f *)
  else if e =? 110 then Some 10         (* n *)
  else if e =? 114 then Some 13         (* r *)
  else if e =? 116 then Some 9          (* t *)
  else None.

(** The body of a string, after its opening quote: the decoded text and
    what follows the closing quote.  [acc] holds the decoded text so far,
    last character first. *)
Fixpoint scanstring (s acc : pystr) : result (pystr * pystr) :=
  match s with
  | [] => Raise JSONDecodeError                     (* unterminated *)
  | c :: t =>
      if c =? DQ then Ok (rev acc, t)
      else if c =? BACKSLASH then
        match t with
        | [] => Raise JSONDecodeError
        | e :: t1 =>
            if e =? 117 then                        (* \uXXXX *)
              match t1 with
              | h1 :: h2 :: h3 :: h4 :: t2 =>
                  match hex4 h1 h2 h3 h4 with
                  | None => Raise JSONDecodeError
                  | Some u =>
                      if is_high_surrogate u then
                        match t2 with
                        | b :: u' :: g1 :: g2 :: g3 :: g4 :: t3 =>
                            if (b =? BACKSLASH) && (u' =? 117) then
                              match hex4 g1 g2 g3 g4 with
                              | None => Raise JSONDecodeError
                              | Some u2 =>
                                  if is_low_surrogate u2
                                  then scanstring t3 (join_surrogates u u2 :: acc)
                                  else scanstring t2 (u :: acc)
                              end
                            else scanstring t2 (u :: acc)
                        | _ => scanstring t2 (u :: acc)
                        end
                      else scanstring t2 (u :: acc)
                  end
              | _ => Raise JSONDecodeError
              end
            else
              match unescape e with
              | Some x => scanstring t1 (x :: acc)
              | None => Raise JSONDecodeError
              end
        end
      else if c <=? 31 then Raise JSONDecodeError   (* control character *)
      else scanstring t (c :: acc)
  end.

(** The longest run of digits at the front. *)
Fixpoint span_digits (s : pystr) : pystr * pystr :=
  match s with
  | c :: t =>
      if is_digit c then let (ds, r) := span_digits t in (c :: ds, r)
      else ([], s)
  | [] => ([], [])
  end.

Definition int_of_digits (ds : pystr) : Z :=
  fold_left (fun a c => (a * 10 + Z.of_N (c - 48))%Z) ds 0%Z.

(** [sys.get_int_max_str_digits()], at its default. *)
Definition int_max_str_digits : nat := 4300.

(** The integer part, an optional minus sign and then [0] or a run of
    digits that starts with a non-zero one: sign, digits, and the rest. *)
Definition integer_part (s : pystr) : option (bool * pystr * pystr) :=
  let (neg, s1) := match s with
                   | c :: t => if c =? 45 then (true, t) else (false, s)
                   | [] => (false, s)
                   end in
  match s1 with
  | d :: t =>
      if d =? 48 then Some (neg, [d], t)
      else if is_digit d then
        let (ds, r) := span_digits t in Some (neg, d :: ds, r)
      else None
  | [] => None
  end.

(** The optional fraction: a point and at least one digit. *)
Definition fraction_part (s : pystr) : pystr * pystr :=
  match s with
  | p :: d :: t =>
      if (p =? 46) && is_digit d then
        let (ds, r) := span_digits t in (p :: d :: ds, r)
      else ([], s)
  | _ => ([], s)
  end.

(** The optional exponent: [e] or [E], an optional sign, at least one
    digit. *)
Definition exponent_part (s : pystr) : pystr * pystr :=
  match s with
  | e :: t =>
      if (e =? 101) || (e =? 69) then
        let (sign, t1) := match t with
                          | g :: t' => if (g =? 45) || (g =? 43)
                                       then ([g], t') else ([], t)
                          | [] => ([], t)
                          end in
        match span_digits t1 with
        | ([], _) => ([], s)
        | (ds, r) => (e :: sign ++ ds, r)
        end
      else ([], s)
  | [] => ([], s)
  end.

Definition match_number (s : pystr) : result (pyobj * pystr) :=
  match integer_part s with
  | None => Raise JSONDecodeError
  | Some (neg, ds, r) =>
      let (frac, r1) := fraction_part r in
      let (expo, r2) := exponent_part r1 in
      match frac, expo with
      | [], [] =>
          if (int_max_str_digits <? List.length ds)%nat then Raise ValueError
          else Ok (PInt (if neg then - int_of_digits ds
                         else int_of_digits ds)%Z, r2)
      | _, _ =>
          Ok (PFloat ((if neg then [45] else []) ++ ds ++ frac ++ expo), r2)
      end
  end.

Fixpoint strip_prefix (p s : pystr) : option pystr :=
  match p, s with
  | [], _ => Some s
  | a :: p', b :: s' => if a =? b then strip_prefix p' s' else None
  | _ :: _, [] => None
  end.

(** The named constants. *)
Definition constants : list (pystr * pyobj) :=
  [ (str "null", PNone);
    (str "true", PBool true);
    (str "false", PBool false);
    (str "NaN", PFloat (str "NaN"));
    (str "Infinity", PFloat (str "Infinity"));
    (str "-Infinity", PFloat (str "-Infinity")) ].

Fixpoint match_constant (cs : list (pystr * pyobj)) (s : pystr)
  : option (pyobj * pystr) :=
  match cs with
  | [] => None
  | (name, v) :: cs' =>
      match strip_prefix name s with
      | Some r => Some (v, r)
      | None => match_constant cs' s
      end
  end.

(** [d[k] = v] on an insertion-ordered dictionary. *)
Fixpoint dict_set (d : list (pystr * pyobj)) (k : pystr) (v : pyobj)
  : list (pystr * pyobj) :=
  match d with
  | [] => [(k, v)]
  | (k', v') :: d' =>
      if list_eq_dec N.eq_dec k k' then (k, v) :: d'
      else (k', v') :: dict_set d' k v
  end.

(** One JSON value at the front of [s].  The recursion is bounded by [n];
    [decode] starts it with a bound no input exhausts. *)
Fixpoint scan_once (n : nat) (s : pystr) : result (pyobj * pystr) :=
  match n with
  | O => Raise RecursionError
  | S n' =>
      match s with
      | [] => Raise JSONDecodeError
      | c :: t =>
          if c =? DQ then
            match scanstring t [] with
            | Ok (x, r) => Ok (PStr x, r)
            | Raise e => Raise e
            end
          else if c =? 123 then                        (* { *)
            match skip_ws t with
            | c' :: r =>
                if c' =? 125 then Ok (PDict [], r)
                else object_items n' (skip_ws t) []
            | [] => Raise JSONDecodeError
            end
          else if c =? LBRACK then
            match skip_ws t with
            | c' :: r =>
                if c' =? RBRACK then Ok (PList [], r)
                else array_items n' (skip_ws t) []
            | [] => Raise JSONDecodeError
            end
          else
            match match_constant constants s with
            | Some vr => Ok vr
            | None => match_number s
            end
      end
  end

(** The items of an array, from the first character of an item on;
    [acc] holds the items read so far, last one first. *)
with array_items (n : nat) (s : pystr) (acc : list pyobj)
  : result (pyobj * pystr) :=
  match n with
  | O => Raise RecursionError
  | S n' =>
      match scan_once n' s with
      | Raise e => Raise e
      | Ok (v, r) =>
          match skip_ws r with
          | c :: r' =>
              if c =? RBRACK then Ok (PList (rev (v :: acc)), r')
              else if c =? 44 then array_items n' (skip_ws r') (v :: acc)
              else Raise JSONDecodeError
          | [] => Raise JSONDecodeError
          end
      end
  end

(** The members of an object, from the opening quote of a key on. *)
with object_items (n : nat) (s : pystr) (acc : list (pystr * pyobj))
  : result (pyobj * pystr) :=
  match n with
  | O => Raise RecursionError
  | S n' =>
      match s with
      | c :: t =>
          if c =? DQ then
            match scanstring t [] with
            | Raise e => Raise e
            | Ok (k, r) =>
                match skip_ws r with
                | c1 :: r1 =>
                    if c1 =? 58 then                   (* : *)
                      match scan_once n' (skip_ws r1) with
                      | Raise e => Raise e
                      | Ok (v, r2) =>
                          match skip_ws r2 with
                          | c2 :: r3 =>
                              if c2 =? 125 then Ok (PDict (dict_set acc k v), r3)
                              else if c2 =? 44 then
                                object_items n' (skip_ws r3) (dict_set acc k v)
                              else Raise JSONDecodeError
                          | [] => Raise JSONDecodeError
                          end
                      end
                    else Raise JSONDecodeError
                | [] => Raise JSONDecodeError
                end
            end
          else Raise JSONDecodeError
      | [] => Raise JSONDecodeError
      end
  end.

(** [JSONDecoder.decode] *)
Definition decode (s : pystr) : result pyobj :=
  match scan_once (2 * List.length s + 1) (skip_ws s) with
  | Raise e => Raise e
  | Ok (v, r) =>
      match skip_ws r with
      | [] => Ok v
      | _ :: _ => Raise JSONDecodeError                (* extra data *)
      end
  end.

(** [json.loads(x)]: a [str] is decoded, unless it starts with a byte
    order mark; any other object here is neither [str] nor [bytes]. *)
Definition json_loads (x : pyobj) : result pyobj :=
  match x with
  | PStr s =>
      match s with
      | c :: _ => if c =? 65279 then Raise JSONDecodeError else decode s
      | [] => decode s
      end
  | _ => Raise TypeError
  end.

(** ** Formatting an integer *)

(** [str(n)] for an [int]: decimal, with a minus sign when negative. *)
Definition str_of_int (n : Z) : pystr :=
  str (DecimalString.NilZero.string_of_int (Z.to_int n)).

(** ** The prompts

    The four f-strings of the module, line by line. *)

Definition script_prompt (video_subject : pystr) : pystr :=
  lines
    [ [];
      str "    Video Subject: " ++ video_subject;
      [];
      str "    Craft a compelling script tailored to the specific subject of this video. Ensure the narrative is succinct yet impactful, designed to captivate and engage your audience from the first moment. The script should weave a coherent story or present information directly related to the video's subject, captivating viewers' attention and encouraging them to watch till the end.";
      [];
      str "    Your script must:";
      str "    - Begin with a strong hook that immediately grabs the viewer's attention.";
      str "    - Clearly convey the main message or story related to the video's subject in a concise manner.";
      str "    - Include a very short and memorable closing sentence that leaves a lasting impression or calls the viewer to action.";
      [];
      str "    Please adhere to the following guidelines:";
      str "    1. The script is to be returned as a string. Here is an example of a string: " ++ quoted (str "This is an example string.");
      str "    2. The script HAS TO BE between 50 to 120 words, optimal for short form video content. NEVER more then 200!";
      str "    3. Avoid introductory phrases such as 'welcome to this video' to maintain immediacy and relevance.";
      str "    4. Present the script content as direct narration without indicating 'voiceover' or 'narrator' cues.";
      str "    5. Do not under any circumstance reference this prompt in your response.";
      str "    6. YOU MUST ONLY RETURN THE RAW CONTENT OF THE SCRIPT. ";
      str "    7. DO NOT INCLUDE " ++ quoted (str "VOICEOVER") ++ str ", " ++ quoted (str "NARRATOR") ++ str " OR SIMILAR INDICATORS OF WHAT SHOULD BE SPOKEN AT THE BEGINNING OF EACH PARAGRAPH OR LINE.";
      str "    8. DO NOT include the Video Subject (" ++ video_subject ++ str ") in the script.";
      str "    ";
      str "    Strategize and think step by step ensuring to ONLY RETURNING THE RAW CONTENT OF THE SCRIPT within the word limit. I will tip you greatly for following the instructions carefully and creating a high-quality script.";
      str "    " ].

Definition search_terms_prompt (video_subject : pystr) (amount : Z) (script : pystr) : pystr :=
  lines
    [ [];
      str "    Based on the video subject '" ++ video_subject ++ str "', generate " ++ str_of_int amount ++ str " relevant search terms. ";
      str "    These terms should be closely related to the subject and concise (1-3 words each). ";
      str "    Consider the script for context but focus on the subject. ";
      str "    ";
      str "    The search terms are to be returned as";
      str "    a JSON-Array of strings.";
      [];
      str "    Each search term should consist of 1-4 words, ensuring the search terms are distinct.";
      str "    ";
      str "    YOU MUST ONLY RETURN THE JSON-ARRAY OF STRINGS.";
      str "    YOU MUST NOT RETURN ANYTHING ELSE. ";
      str "    YOU MUST NOT RETURN THE SCRIPT.";
      str "    ";
      str "    The search terms must be related to the subject of the video.";
      str "    Here is an example of a JSON-Array of strings:";
      str "    [" ++ quoted (str "search term 1") ++ str ", " ++ quoted (str "search term 2") ++ str ", " ++ quoted (str "search term 3") ++ str "]";
      [];
      str "    ";
      str "     Constraints:";
      str "    - Include the video subject in most search terms.";
      str "    - Ensure terms are concise and directly related to the video content.";
      str "    - Output format: JSON array of strings, e.g., [" ++ quoted (str "term1") ++ str ", " ++ quoted (str "term2") ++ str "].";
      str "    ";
      str "    Example:";
      str "    If the video subject is 'wildlife conservation' and the script mentions 'tigers', 'national parks', and 'conservation efforts', appropriate search terms could be [" ++ quoted (str "wildlife conservation") ++ str ", " ++ quoted (str "tiger conservation") ++ str ", " ++ quoted (str "national parks") ++ str "].";
      str "    ";
      str "    For context, here is the full text:";
      str "    " ++ script;
      str "    ";
      str "    ";
      str "    Strategize and think step by step ensuring to JSON-ARRAY OF STRINGS. I will tip you greatly for following the instructions carefully and creating a high-quality output.";
      str "    " ].

Definition title_prompt (video_subject : pystr) : pystr :=
  lines
    [ str "  ";
      str "    Generate a catchy and SEO-friendly title for a YouTube shorts video about " ++ video_subject ++ str ".  ";
      str "    " ].

Definition description_prompt (video_subject : pystr) (script : pystr) : pystr :=
  lines
    [ str "  ";
      str "    Write a brief and engaging description for a YouTube shorts video about " ++ video_subject ++ str ".  ";
      str "    The video is based on the following script:  ";
      str "    " ++ script ++ str "  ";
      str "    " ].

(** ** The completion service, the console and the monad *)

Inductive model := gpt_35_turbo_16k_0613.

Record message := { role : pystr; content : pystr }.

Inductive color := cyan | red | yellow.

(** One [print(colored(text, color))]. *)
Record printed := { text : pystr; shade : color }.

Section Generators.

(** The state of the completion service, and
    [g4f.ChatCompletion.create(model=..., messages=...)]: it answers
    with a string or raises, and moves to a new state. *)
Variable World : Type.
Variable create : model -> list message -> World -> result pystr * World.

(** What a call can change: the service and the console. *)
Record state := { service : World; stdout : list printed }.

(** A computation reads and updates the state, and returns or raises. *)
Definition M (A : Type) : Type := state -> result A * state.

Definition ret {A} (a : A) : M A := fun st => (Ok a, st).

Definition bind {A B} (c : M A) (k : A -> M B) : M B :=
  fun st =>
    match c st with
    | (Ok a, st') => k a st'
    | (Raise e, st') => (Raise e, st')
    end.

(** A library call that does not touch the state. *)
Definition lift {A} (r : result A) : M A := fun st => (r, st).

(** [try: c / except Exception: h]; every exception of the model is an
    [Exception]. *)
Definition try_except {A} (c : M A) (h : M A) : M A :=
  fun st =>
    match c st with
    | (Ok a, st') => (Ok a, st')
    | (Raise _, st') => h st'
    end.

Definition print (t : pystr) (c : color) : M unit :=
  fun st =>
    (Ok tt, {| service := service st;
               stdout := stdout st ++ [{| text := t; shade := c |}] |}).

Definition ChatCompletion_create (m : model) (msgs : list message)
  : M pystr :=
  fun st =>
    let (r, w) := create m msgs (service st) in
    (r, {| service := w; stdout := stdout st |}).

Notation "x <- c ;; k" := (bind c (fun x => k))
  (at level 61, c at next level, right associativity).
Notation "c ;; k" := (bind c (fun _ => k))
  (at level 61, right associativity).

(** ** [generate_script] *)

Definition generate_script (video_subject : pystr) : M (option pystr) :=
  let prompt := script_prompt video_subject in
  response <- ChatCompletion_create gpt_35_turbo_16k_0613
                [{| role := str "user"; content := prompt |}] ;;
  print response cyan ;;
  match response with
  | _ :: _ =>
      let response := remove_char STAR response in
      let response := remove_char HASH response in
      let response := re_sub LBRACK RBRACK response in
      let response := re_sub LPAREN RPAREN response in
      ret (Some (response ++ [SPACE]))
  | [] =>
      print (str "[-] GPT returned an empty response.") red ;;
      ret None
  end.

(** ** [get_search_terms] *)

(** Truth value of a list. *)
Definition is_empty {A} (l : list A) : bool :=
  match l with [] => true | _ :: _ => false end.

Definition get_search_terms (video_subject : pystr) (amount : Z)
    (script : pystr) : M pyobj :=
  let prompt := search_terms_prompt video_subject amount script in
  response <- ChatCompletion_create gpt_35_turbo_16k_0613
                [{| role := str "user"; content := prompt |}] ;;
  search_terms <-
    try_except
      (lift (json_loads (PStr response)))
      (print (str "[*] GPT returned an unformatted response. Attempting to clean...")
             yellow ;;
       let search_terms := re_findall LBRACK RBRACK response in
       (if is_empty search_terms
        then print (str "[-] Could not parse response.") red
        else ret tt) ;;
       lift (json_loads (PList (map PStr search_terms)))) ;;
  joined <- lift (str_join (str ", ") search_terms) ;;
  print (NL :: str "Generated " ++ str_of_int amount
            ++ str " search terms: " ++ joined) cyan ;;
  ret search_terms.

(** ** [generate_metadata] *)

Definition generate_metadata (video_subject script : pystr)
  : M (pystr * pystr * pyobj) :=
  let title_prompt := title_prompt video_subject in
  title_response <- ChatCompletion_create gpt_35_turbo_16k_0613
                      [{| role := str "user"; content := title_prompt |}] ;;
  let title := strip title_response in
  let description_prompt := description_prompt video_subject script in
  description_response <-
    ChatCompletion_create gpt_35_turbo_16k_0613
      [{| role := str "user"; content := description_prompt |}] ;;
  let description := strip description_response in
  keywords <- get_search_terms video_subject 6 script ;;
  ret (title, description, keywords).

End Generators.

Arguments service {World} s.
Arguments stdout {World} s.

(** ** A completion service for concrete runs

    It replays a list of prepared outcomes, one per call, and raises once
    the list is used up. *)
Definition replay (_ : model) (_ : list message) (w : list (result pystr))
  : result pystr * list (result pystr) :=
  match w with
  | r :: w' => (r, w')
  | [] => (Raise (ServiceError (str "no answer left")), [])
  end.

(** The state before anything ran: the outcomes to replay, nothing
    printed. *)
Definition fresh (w : list (result pystr)) : state (list (result pystr)) :=
  {| service := w; stdout := [] |}.

(** The single user message every call sends. *)
Definition user (prompt : pystr) : list message :=
  [{| role := str "user"; content := prompt |}].

(** The four cleaning steps of [generate_script], in order. *)
Definition cleaned (response : pystr) : pystr :=
  re_sub LPAREN RPAREN
    (re_sub LBRACK RBRACK
       (remove_char HASH (remove_char STAR response))).

(** ** The bracket stripping as the specification words it

    For comparison with [re_sub]: the text from the first opening bracket
    to the last closing bracket of the whole string is removed. *)

(** What follows the last [c] of [s], if [c] occurs in [s]. *)
Fixpoint after_last (c : char) (s : pystr) : option pystr :=
  match s with
  | [] => None
  | x :: t =>
      match after_last c t with
      | Some r => Some r
      | None => if x =? c then Some t else None
      end
  end.

Fixpoint remove_span_whole (o c : char) (s : pystr) : pystr :=
  match s with
  | [] => []
  | x :: t =>
      if x =? o then
        match after_last c t with
        | Some r => r
        | None => s
        end
      else x :: remove_span_whole o c t
  end.

Definition cleaned_whole (response : pystr) : pystr :=
  remove_span_whole LPAREN RPAREN
    (remove_span_whole LBRACK RBRACK
       (remove_char HASH (remove_char STAR response))).

(** A text with two disjoint bracketed groups. *)
Definition two_groups (o c : char) (s : pystr) : Prop :=
  exists p0 g1 p1 g2 p2,
    s = p0 ++ o :: g1 ++ c :: p1 ++ o :: g2 ++ c :: p2
    /\ ~ In o g1 /\ ~ In c g1 /\ ~ In o g2 /\ ~ In c g2.

(** ** Rendering a list of strings as a JSON array

    One JSON text per list of strings: quotes and backslashes are
    escaped with a backslash, control characters as [\u00XX], items are
    separated by a comma and a space. *)

Definition hexdigit (d : N) : char := if d <? 10 then 48 + d else 87 + d.

Definition escape_char (c : char) : pystr :=
  if c =? DQ then [BACKSLASH; DQ]
  else if c =? BACKSLASH then [BACKSLASH; BACKSLASH]
  else if c <=? 31 then
    [BACKSLASH; 117; 48; 48; hexdigit (c / 16); hexdigit (c mod 16)]
  else [c].

Definition json_string (s : pystr) : pystr := quoted (flat_map escape_char s).

Fixpoint json_items (l : list pystr) : pystr :=
  match l with
  | [] => []
  | [t] => json_string t
  | t :: l' => json_string t ++ str ", " ++ json_items l'
  end.

Definition json_array (l : list pystr) : pystr :=
  LBRACK :: json_items l ++ [RBRACK].

(** What a scanning step guarantees: it does not fail for want of fuel,
    and what it leaves is shorter than what it was given. *)
Definition scanned {A} (s : pystr) (r : result (A * pystr)) : Prop :=
  match r with
  | Ok (_, rest) => (List.length rest < List.length s)%nat
  | Raise e => e <> RecursionError
  end.

(** ** Notions for the further properties *)

(** [spans o c seen s]: on some line of [s] an [o] is followed, later on
    the same line, by a [c]; [seen] tells whether an [o] was met already
    on the current line. *)
Fixpoint spans (o c : char) (seen : bool) (s : pystr) : bool :=
  match s with
  | [] => false
  | x :: t =>
      if x =? NL then spans o c false t
      else if seen && (x =? c) then true
      else spans o c (seen || (x =? o)) t
  end.

(** [erased s' s]: [s'] is [s] with some characters other than line feeds
    taken out. *)
Inductive erased : pystr -> pystr -> Prop :=
| erased_nil : erased [] []
| erased_keep x s' s : erased s' s -> erased (x :: s') (x :: s)
| erased_drop x s' s : x <> NL -> erased s' s -> erased s' (x :: s).

(** [bracketed o c s]: somewhere in [s] an [o] is followed by a [c] with
    no line feed between the two. *)
Definition bracketed (o c : char) (s : pystr) : Prop :=
  exists pre mid post, s = pre ++ o :: mid ++ c :: post /\ ~ In NL mid.

(** Whether a value is a string. *)
Definition is_str (v : pyobj) : bool :=
  match v with PStr _ => true | _ => false end.

(** The values [str.join] accepts: a string, a dictionary (its keys are
    strings), a list of strings. *)
Definition joinable (v : pyobj) : bool :=
  match v with
  | PStr _ => true
  | PDict _ => true
  | PList l => forallb is_str l
  | _ => false
  end.

(** The characters a JSON value can begin with. *)
Definition value_start (c : char) : bool :=
  (c =? DQ) || (c =? 123) || (c =? LBRACK) || (c =? 45) || is_digit c
  || (c =? 110) || (c =? 116) || (c =? 102) || (c =? 78) || (c =? 73).

(** Whether the text, after its leading white space, begins like a JSON
    value. *)
Definition starts_value (s : pystr) : bool :=
  match skip_ws s with
  | [] => false
  | c :: _ => value_start c
  end.

(** Nothing but white space. *)
Definition all_space (s : pystr) : Prop := Forall (fun c => isspace c = true) s.

(** No white space at either end. *)
Definition trimmed (t : pystr) : Prop :=
  (forall x t', t = x :: t' -> isspace x = false)
  /\ (forall x t', t = t' ++ [x] -> isspace x = false).

(** What follows a scanned value, with [w] put after it. *)
Definition extend {A} (w : pystr) (r : result (A * pystr))
  : result (A * pystr) :=
  match r with
  | Ok (v, rest) => Ok (v, rest ++ w)
  | Raise e => Raise e
  end.

(** Nothing but the white space of JSON: space, tab, line feed, carriage
    return. *)
Definition json_space (w : pystr) : Prop := Forall (fun c => is_ws c = true) w.

(** * Properties *)

(** ** The regular-expression scan *)

Lemma literals_scan_In o c s :
  forall k x, In x (literals (scan o c k s)) -> In x s.
Proof.
  induction s as [|a s IH]; intros k x; simpl; [tauto|].
  destruct k as [|k].
  - destruct (a =? o).
    + destruct (match_len c s) as [n|]; simpl.
      * intros H; right; exact (IH _ _ H).
      * intros [H|H]; [left; exact H | right; exact (IH _ _ H)].
    + simpl. intros [H|H]; [left; exact H | right; exact (IH _ _ H)].
  - intros H; right; exact (IH _ _ H).
Qed.

Lemma re_sub_In o c s x : In x (re_sub o c s) -> In x s.
Proof. apply literals_scan_In. Qed.

Lemma remove_char_In c s x : In x (remove_char c s) -> x <> c /\ In x s.
Proof.
  unfold remove_char. rewrite filter_In. intros [H1 H2]. split; [|exact H1].
  intros ->. rewrite N.eqb_refl in H2. discriminate.
Qed.

(** Characters before the first opening bracket are kept as they are. *)
Lemma scan_no_open o c pre s :
  ~ In o pre -> scan o c 0 (pre ++ s) = map Lit pre ++ scan o c 0 s.
Proof.
  induction pre as [|a pre IH]; simpl; intros H; [reflexivity|].
  destruct (N.eqb_spec a o) as [->|_]; [tauto|].
  rewrite IH by tauto. reflexivity.
Qed.

(** Inside a match the scan only counts down. *)
Lemma scan_skip o c l s : scan o c (List.length l) (l ++ s) = scan o c 0 s.
Proof. induction l as [|a l IH]; simpl; [reflexivity | exact IH]. Qed.

(** No closing bracket is found in a text that has none before its first
    line feed. *)
Lemma match_len_none c tail rest :
  ~ In c tail -> match_len c (tail ++ NL :: rest) = None.
Proof.
  induction tail as [|a tail IH]; simpl; intros H.
  - reflexivity.
  - destruct (a =? NL); [reflexivity|].
    rewrite IH by tauto.
    destruct (N.eqb_spec a c) as [->|_]; [tauto | reflexivity].
Qed.

Lemma match_len_none_end c tail : ~ In c tail -> match_len c tail = None.
Proof.
  induction tail as [|a tail IH]; simpl; intros H; [reflexivity|].
  destruct (a =? NL); [reflexivity|].
  rewrite IH by tauto.
  destruct (N.eqb_spec a c) as [->|_]; [tauto | reflexivity].
Qed.

(** The match runs to the last closing bracket of the line. *)
Lemma match_len_last c mid post :
  c <> NL -> ~ In NL mid -> match_len c post = None ->
  match_len c (mid ++ c :: post) = Some (S (List.length mid)).
Proof.
  intros Hc. induction mid as [|a mid IH]; simpl; intros Hm Hp.
  - destruct (N.eqb_spec c NL) as [E|_]; [contradiction|].
    rewrite Hp, N.eqb_refl. reflexivity.
  - destruct (N.eqb_spec a NL) as [->|_]; [tauto|].
    rewrite IH by tauto. reflexivity.
Qed.

Lemma scan_match o c mid post :
  c <> NL -> ~ In NL mid -> match_len c post = None ->
  scan o c 0 (o :: mid ++ c :: post)
  = Match (o :: mid ++ [c]) :: scan o c 0 post.
Proof.
  intros Hc Hm Hp. simpl. rewrite N.eqb_refl.
  rewrite (match_len_last c mid post Hc Hm Hp).
  replace (mid ++ c :: post) with ((mid ++ [c]) ++ post)
    by (rewrite <- app_assoc; reflexivity).
  replace (S (List.length mid)) with (List.length (mid ++ [c]))
    by (rewrite length_app; simpl; lia).
  rewrite scan_skip, firstn_app, firstn_all, Nat.sub_diag. simpl.
  rewrite app_nil_r. reflexivity.
Qed.

(** A stretch without closing bracket is kept up to its line feed. *)
Lemma scan_no_close o c tail rest :
  ~ In c tail ->
  scan o c 0 (tail ++ NL :: rest) = map Lit tail ++ scan o c 0 (NL :: rest).
Proof.
  induction tail as [|a tail IH]; simpl app; intros H; [reflexivity|].
  cbn [scan map app]. rewrite (match_len_none c tail rest) by (simpl in H; tauto).
  rewrite IH by (simpl in H; tauto).
  destruct (a =? o); reflexivity.
Qed.

Lemma scan_no_close_end o c tail :
  ~ In c tail -> scan o c 0 tail = map Lit tail.
Proof.
  induction tail as [|a tail IH]; simpl; intros H; [reflexivity|].
  rewrite (match_len_none_end c tail) by tauto.
  rewrite IH by tauto.
  destruct (a =? o); reflexivity.
Qed.

Lemma literals_app l1 l2 : literals (l1 ++ l2) = literals l1 ++ literals l2.
Proof.
  induction l1 as [|[x|m] l1 IH]; simpl; [reflexivity | now rewrite IH | exact IH].
Qed.

Lemma literals_map_Lit s : literals (map Lit s) = s.
Proof. induction s as [|a s IH]; simpl; [reflexivity | now rewrite IH]. Qed.

Lemma matches_app l1 l2 : matches (l1 ++ l2) = matches l1 ++ matches l2.
Proof.
  induction l1 as [|[x|m] l1 IH]; simpl; [reflexivity | exact IH | now rewrite IH].
Qed.

Lemma matches_map_Lit s : matches (map Lit s) = [].
Proof. induction s as [|a s IH]; simpl; [reflexivity | exact IH]. Qed.

(** ** [generate_script] *)

Section ScriptProperties.

Variable World : Type.
Variable create : model -> list message -> World -> result pystr * World.

(** What one run does, given the answer of the service. *)
Lemma generate_script_run video_subject st response w :
  create gpt_35_turbo_16k_0613 (user (script_prompt video_subject))
         (service st) = (Ok response, w) ->
  generate_script World create video_subject st
  = match response with
    | [] =>
        (Ok None,
         {| service := w;
            stdout := (stdout st ++ [{| text := response; shade := cyan |}])
                      ++ [{| text := str "[-] GPT returned an empty response.";
                             shade := red |}] |})
    | _ :: _ =>
        (Ok (Some (cleaned response ++ [SPACE])),
         {| service := w;
            stdout := stdout st ++ [{| text := response; shade := cyan |}] |})
    end.
Proof.
  intros H. unfold generate_script, bind, ChatCompletion_create, user in *.
  cbv zeta. rewrite H. destruct response; reflexivity.
Qed.

Lemma cleaned_In x response :
  In x (cleaned response) -> x <> STAR /\ x <> HASH.
Proof.
  unfold cleaned. intros H.
  apply re_sub_In, re_sub_In, remove_char_In in H. destruct H as [H1 H].
  apply remove_char_In in H. tauto.
Qed.

(** C3: whatever the subject and whatever the service answers,
    [generate_script] returns either nothing ([None]) or a string in
    which neither an asterisk nor a hash sign occurs. *)
Theorem generate_script_no_star_no_hash video_subject st response w :
  create gpt_35_turbo_16k_0613 (user (script_prompt video_subject))
         (service st) = (Ok response, w) ->
  fst (generate_script World create video_subject st) = Ok None
  \/ exists s,
      fst (generate_script World create video_subject st) = Ok (Some s)
      /\ ~ In STAR s /\ ~ In HASH s.
Proof.
  intros H. rewrite (generate_script_run _ _ _ _ H).
  destruct response as [|a r]; [left; reflexivity|right].
  eexists; split; [reflexivity|].
  split; intros Hin; apply in_app_or in Hin;
    destruct Hin as [Hin|[Hin|[]]];
    try discriminate Hin;
    apply cleaned_In in Hin; destruct Hin; congruence.
Qed.

(** C7, as the code has it: [generate_script] raises exactly when the
    completion call raises, and then that same exception: the call is
    not guarded, and nothing after it can fail.  On a non-empty answer
    the run returns the cleaned text followed by one space, on an empty
    answer it returns [None]. *)
Theorem generate_script_raises_exactly video_subject st :
  let call := create gpt_35_turbo_16k_0613
                (user (script_prompt video_subject)) (service st) in
  let run := generate_script World create video_subject st in
  (forall e, fst run = Raise e <-> fst call = Raise e)
  /\ (forall response,
         fst call = Ok response -> response <> [] ->
         fst run
         = Ok (Some (re_sub LPAREN RPAREN
                       (re_sub LBRACK RBRACK
                          (remove_char HASH (remove_char STAR response)))
                     ++ [SPACE])))
  /\ (forall response,
         fst call = Ok response -> response = [] -> fst run = Ok None).
Proof.
  cbv zeta.
  destruct (create gpt_35_turbo_16k_0613 (user (script_prompt video_subject))
              (service st)) as [[answer|e0] w] eqn:E; cbn [fst].
  - rewrite (generate_script_run _ _ _ _ E). split; [|split].
    + intros e. destruct answer; cbn [fst]; split; discriminate.
    + intros response [= <-] Hr.
      destruct answer; [congruence | reflexivity].
    + intros response [= <-] Hr. subst answer. reflexivity.
  - assert (fst (generate_script World create video_subject st) = Raise e0)
      as ->.
    { unfold generate_script, bind, ChatCompletion_create, user in *.
      cbv zeta. rewrite E. reflexivity. }
    split; [|split].
    + intros e. split; intros [= <-]; reflexivity.
    + intros response H. discriminate H.
    + intros response H. discriminate H.
Qed.

End ScriptProperties.

(** C3 at a concrete answer. *)
Lemma generate_script_no_star_no_hash_witness :
  let response := str "# A *bold* claim" in
  fst (generate_script _ replay (str "cats") (fresh [Ok response])) = Ok None
  \/ exists s,
      fst (generate_script _ replay (str "cats") (fresh [Ok response]))
      = Ok (Some s)
      /\ ~ In STAR s /\ ~ In HASH s.
Proof.
  intros response.
  apply (generate_script_no_star_no_hash _ replay (str "cats")
           (fresh [Ok response]) response []).
  reflexivity.
Defined.

(** C7 at a concrete answer. *)
Lemma generate_script_raises_exactly_witness :
  fst (generate_script _ replay (str "cats") (fresh [Ok (str "Hi *you*")]))
  = Ok (Some (str "Hi you ")).
Proof.
  apply (proj1 (proj2 (generate_script_raises_exactly _ replay (str "cats")
                         (fresh [Ok (str "Hi *you*")])))
           (str "Hi *you*")).
  - reflexivity.
  - discriminate.
Defined.

(** C7 as worded fails: when the completion call raises, so does
    [generate_script]. *)
Lemma generate_script_never_raises_counterexample :
  let failure := ServiceError (str "connection refused") in
  fst (replay gpt_35_turbo_16k_0613 (user (script_prompt (str "cats")))
         [Raise failure]) = Raise failure
  /\ fst (generate_script _ replay (str "cats") (fresh [Raise failure]))
     = Raise failure.
Proof. split; reflexivity. Qed.

(** ** The bracket stripping, line by line *)

(** On the line of the first opening bracket, the text from that bracket
    to the last closing bracket of the line goes; the scan goes on after
    the line feed. *)
Lemma re_sub_line o c pre mid tail :
  c <> NL -> ~ In o pre -> ~ In NL mid -> ~ In c tail ->
  re_sub o c (pre ++ o :: mid ++ c :: tail) = pre ++ tail.
Proof.
  intros Hc Hpre Hmid Htail. unfold re_sub.
  rewrite scan_no_open by exact Hpre.
  rewrite scan_match by (auto using match_len_none_end).
  rewrite (scan_no_close_end o c tail Htail).
  rewrite literals_app, literals_map_Lit. simpl.
  rewrite literals_map_Lit. reflexivity.
Qed.

Lemma re_sub_line_more o c pre mid tail rest :
  o <> NL -> c <> NL -> ~ In o pre -> ~ In NL mid -> ~ In c tail ->
  re_sub o c (pre ++ o :: mid ++ c :: tail ++ NL :: rest)
  = pre ++ tail ++ NL :: re_sub o c rest.
Proof.
  intros Ho Hc Hpre Hmid Htail. unfold re_sub.
  rewrite scan_no_open by exact Hpre.
  rewrite scan_match by (auto using match_len_none).
  rewrite (scan_no_close o c tail rest Htail).
  rewrite literals_app, literals_map_Lit. cbn [literals].
  rewrite literals_app, literals_map_Lit.
  cbn [scan]. destruct (N.eqb_spec NL o) as [E|_]; [congruence|].
  reflexivity.
Qed.

(** C4, as the code has it: a non-empty answer is cleaned by the two
    substitutions, square brackets first; each of them is greedy within a
    line only.  From the first opening bracket to the last closing
    bracket of the same line everything is removed, however many
    bracketed groups lie between; a line feed ends the match and the
    following lines are treated on their own. *)
Theorem bracket_stripping_greedy_per_line
    World (create : model -> list message -> World -> result pystr * World)
    video_subject st response w :
  create gpt_35_turbo_16k_0613 (user (script_prompt video_subject))
         (service st) = (Ok response, w) ->
  response <> [] ->
  fst (generate_script World create video_subject st)
  = Ok (Some (re_sub LPAREN RPAREN
                (re_sub LBRACK RBRACK
                   (remove_char HASH (remove_char STAR response)))
              ++ [SPACE]))
  /\ forall o c,
      (o = LBRACK /\ c = RBRACK) \/ (o = LPAREN /\ c = RPAREN) ->
      forall pre mid tail rest,
        ~ In o pre -> ~ In NL mid -> ~ In c tail ->
        re_sub o c (pre ++ o :: mid ++ c :: tail) = pre ++ tail
        /\ re_sub o c (pre ++ o :: mid ++ c :: tail ++ NL :: rest)
           = pre ++ tail ++ NL :: re_sub o c rest.
Proof.
  intros H Hr. split.
  - rewrite (generate_script_run _ _ _ _ _ _ H).
    destruct response; [congruence | reflexivity].
  - intros o c Hoc pre mid tail rest Hpre Hmid Htail.
    assert (o <> NL /\ c <> NL) as [Ho Hc]
      by (destruct Hoc as [[-> ->]|[-> ->]]; split; discriminate).
    split; [apply re_sub_line | apply re_sub_line_more]; assumption.
Qed.

(** C4 on an answer with two groups on its first line and one on its
    second. *)
Lemma bracket_stripping_greedy_per_line_witness :
  let response := str "a [b] c [d] e" ++ NL :: str "f [g] h" in
  fst (generate_script _ replay (str "cats") (fresh [Ok response]))
  = Ok (Some (str "a  e" ++ NL :: str "f  h "))
  /\ re_sub LBRACK RBRACK response = str "a  e" ++ NL :: str "f  h".
Proof.
  intros response.
  destruct (bracket_stripping_greedy_per_line _ replay (str "cats")
              (fresh [Ok response]) response [] eq_refl
              ltac:(discriminate)) as [Hrun Hline].
  split; [exact Hrun|].
  destruct (Hline LBRACK RBRACK (or_introl (conj eq_refl eq_refl))
              (str "a ") (str "b] c [d") (str " e") (str "f [g] h")) as [_ E].
  - simpl; intros [H|[H|[]]]; discriminate H.
  - simpl. intuition discriminate.
  - simpl. intuition discriminate.
  - exact E.
Defined.

(** C4 as worded fails: the answer has two bracketed groups, one per
    line; the code keeps the line feed between them, while removing
    everything from the first opening to the last closing bracket of the
    whole string would leave nothing. *)
Lemma bracket_stripping_whole_string_counterexample :
  let response := str "[a]" ++ NL :: str "[b]" in
  two_groups LBRACK RBRACK response
  /\ fst (generate_script _ replay (str "cats") (fresh [Ok response]))
     = Ok (Some [NL; SPACE])
  /\ cleaned_whole response ++ [SPACE] = [SPACE]
  /\ fst (generate_script _ replay (str "cats") (fresh [Ok response]))
     <> Ok (Some (cleaned_whole response ++ [SPACE])).
Proof.
  intros response. split; [|split; [|split]].
  - exists [], (str "a"), [NL], (str "b"), []. simpl.
    split; [reflexivity|]. intuition discriminate.
  - reflexivity.
  - reflexivity.
  - discriminate.
Qed.

(** ** [str.join] *)

Lemma join_items_strings sep l : exists r, join_items sep (map PStr l) = Ok r.
Proof.
  induction l as [|s l [r IH]]; simpl; [eexists; reflexivity|].
  destruct l as [|s' l]; simpl in *; [eexists; reflexivity|].
  rewrite IH. eexists; reflexivity.
Qed.

Lemma join_items_non_str sep l x :
  In x l -> (forall s, x <> PStr s) -> join_items sep l = Raise TypeError.
Proof.
  intros Hin Hx. induction l as [|a l IH]; [destruct Hin|].
  destruct a; try reflexivity.
  destruct Hin as [E|Hin]; [exfalso; exact (Hx _ (eq_sym E))|].
  simpl. destruct l as [|b l]; [destruct Hin|].
  rewrite (IH Hin). reflexivity.
Qed.

(** [json.loads] takes a string: the list that [re.findall] returns is
    refused, whatever it holds. *)
Lemma json_loads_list l : json_loads (PList l) = Raise TypeError.
Proof. reflexivity. Qed.

(** ** The decoder always has fuel enough *)

Lemma skip_ws_length s : (List.length (skip_ws s) <= List.length s)%nat.
Proof.
  induction s as [|c s IH]; simpl; [lia|].
  destruct (is_ws c); simpl; lia.
Qed.

Lemma scanstring_unfold c t acc :
  scanstring (c :: t) acc
  = if c =? DQ then Ok (rev acc, t)
    else if c =? BACKSLASH then
      match t with
      | [] => Raise JSONDecodeError
      | e :: t1 =>
          if e =? 117 then
            match t1 with
            | h1 :: h2 :: h3 :: h4 :: t2 =>
                match hex4 h1 h2 h3 h4 with
                | None => Raise JSONDecodeError
                | Some u =>
                    if is_high_surrogate u then
                      match t2 with
                      | b :: u' :: g1 :: g2 :: g3 :: g4 :: t3 =>
                          if (b =? BACKSLASH) && (u' =? 117) then
                            match hex4 g1 g2 g3 g4 with
                            | None => Raise JSONDecodeError
                            | Some u2 =>
                                if is_low_surrogate u2
                                then scanstring t3 (join_surrogates u u2 :: acc)
                                else scanstring t2 (u :: acc)
                            end
                          else scanstring t2 (u :: acc)
                      | _ => scanstring t2 (u :: acc)
                      end
                    else scanstring t2 (u :: acc)
                end
            | _ => Raise JSONDecodeError
            end
          else
            match unescape e with
            | Some x => scanstring t1 (x :: acc)
            | None => Raise JSONDecodeError
            end
      end
    else if c <=? 31 then Raise JSONDecodeError
    else scanstring t (c :: acc).
Proof. reflexivity. Qed.

Lemma scanned_longer {A} s s' (r : result (A * pystr)) :
  (List.length s <= List.length s')%nat -> scanned s r -> scanned s' r.
Proof. destruct r as [[v rest]|e]; simpl; [lia | tauto]. Qed.

Ltac split_scrutinee :=
  match goal with
  | |- context [match ?x with _ => _ end] => destruct x eqn:?
  | |- context [if ?x then _ else _] => destruct x eqn:?
  end.

Lemma scanstring_scanned n :
  forall s acc, (List.length s <= n)%nat -> scanned s (scanstring s acc).
Proof.
  induction n as [|n IH]; intros s acc Hn.
  - destruct s; [simpl; discriminate | simpl in Hn; lia].
  - destruct s as [|c t]; [simpl; discriminate|].
    rewrite scanstring_unfold. simpl in Hn.
    repeat split_scrutinee;
      try (simpl; discriminate);
      try (simpl; lia);
      (eapply scanned_longer; [|apply IH]; simpl in *; lia).
Qed.

Lemma span_digits_length s :
  (List.length (fst (span_digits s)) + List.length (snd (span_digits s))
   = List.length s)%nat.
Proof.
  induction s as [|c s IH]; simpl; [reflexivity|].
  destruct (is_digit c); [|simpl; lia].
  destruct (span_digits s) as [ds r]. simpl in *. lia.
Qed.

Lemma span_digits_rest s ds r :
  span_digits s = (ds, r) -> (List.length r <= List.length s)%nat.
Proof.
  intros H. pose proof (span_digits_length s) as L. rewrite H in L.
  simpl in L. lia.
Qed.

Ltac split_in H :=
  match type of H with
  | context [match ?x with _ => _ end] => destruct x eqn:?
  | context [if ?x then _ else _] => destruct x eqn:?
  end.

Ltac span_rest :=
  repeat match goal with
         | E : span_digits _ = _ |- _ => apply span_digits_rest in E
         end.

Lemma integer_part_rest s neg ds r :
  integer_part s = Some (neg, ds, r) -> (List.length r < List.length s)%nat.
Proof.
  unfold integer_part. intros H. destruct s as [|c t]; [discriminate|].
  destruct (c =? 45); repeat split_in H; try discriminate;
    injection H as <- <- <-; span_rest; simpl in *; lia.
Qed.

Lemma fraction_part_rest s f r :
  fraction_part s = (f, r) -> (List.length r <= List.length s)%nat.
Proof.
  unfold fraction_part. intros H.
  repeat split_in H; injection H as <- <-; span_rest; simpl in *; lia.
Qed.

Lemma exponent_part_rest s x r :
  exponent_part s = (x, r) -> (List.length r <= List.length s)%nat.
Proof.
  unfold exponent_part. intros H.
  destruct s as [|e t]; [injection H as <- <-; simpl; lia|].
  destruct ((e =? 101) || (e =? 69)); [|injection H as <- <-; simpl; lia].
  destruct t as [|g t'];
    [|destruct ((g =? 45) || (g =? 43))];
    repeat split_in H; injection H as <- <-; span_rest; simpl in *; lia.
Qed.

Lemma match_number_scanned s : scanned s (match_number s).
Proof.
  unfold match_number.
  destruct (integer_part s) as [[[neg ds] r]|] eqn:I; [|simpl; discriminate].
  apply integer_part_rest in I.
  destruct (fraction_part r) as [f r1] eqn:F. apply fraction_part_rest in F.
  destruct (exponent_part r1) as [x r2] eqn:X. apply exponent_part_rest in X.
  repeat split_scrutinee; simpl; try discriminate; lia.
Qed.

Lemma strip_prefix_length p :
  forall s r, strip_prefix p s = Some r ->
              (List.length r + List.length p = List.length s)%nat.
Proof.
  induction p as [|a p IH]; intros [|b s] r; simpl; try discriminate.
  - intros [= <-]. reflexivity.
  - intros [= <-]. simpl. lia.
  - destruct (a =? b); [|discriminate]. intros H. apply IH in H. lia.
Qed.

Lemma match_constant_rest cs s v r :
  Forall (fun p => fst p <> []) cs ->
  match_constant cs s = Some (v, r) -> (List.length r < List.length s)%nat.
Proof.
  induction 1 as [|[name w] cs Hn _ IH]; simpl; [discriminate|].
  destruct (strip_prefix name s) as [r'|] eqn:E; [|exact IH].
  intros [= _ <-]. apply strip_prefix_length in E.
  destruct name; [elim Hn; reflexivity | simpl in E; lia].
Qed.

Lemma constants_named : Forall (fun p => fst p <> []) constants.
Proof. repeat constructor; discriminate. Qed.

(** With twice the length of the text as bound, the recursion of the
    decoder never reaches its end. *)
Lemma decoder_fuel n :
  (forall s, (2 * List.length s < n)%nat -> scanned s (scan_once n s))
  /\ (forall s acc, (2 * List.length s + 1 < n)%nat ->
                    scanned s (array_items n s acc))
  /\ (forall s acc, (2 * List.length s + 1 < n)%nat ->
                    scanned s (object_items n s acc)).
Proof.
  induction n as [|n (IHs & IHa & IHo)]; [repeat split; intros; lia|].
  split; [|split].
  - intros [|c t] Hn; [simpl; discriminate|]. cbn [scan_once].
    pose proof (skip_ws_length t) as W.
    pose proof (scanstring_scanned _ t [] (le_n _)) as Sc.
    destruct (c =? DQ).
    { destruct (scanstring t []) as [[x r]|e]; simpl in *; [lia | exact Sc]. }
    destruct (c =? 123).
    { destruct (skip_ws t) as [|c' r] eqn:E; [simpl; discriminate|].
      destruct (c' =? 125); [simpl in *; lia|].
      eapply scanned_longer; [|apply IHo]; simpl in *; lia. }
    destruct (c =? LBRACK).
    { destruct (skip_ws t) as [|c' r] eqn:E; [simpl; discriminate|].
      destruct (c' =? RBRACK); [simpl in *; lia|].
      eapply scanned_longer; [|apply IHa]; simpl in *; lia. }
    destruct (match_constant constants (c :: t)) as [[v r]|] eqn:E.
    + apply (match_constant_rest _ _ _ _ constants_named) in E. exact E.
    + apply match_number_scanned.
  - intros s acc Hn. cbn [array_items].
    assert (scanned s (scan_once n s)) as Hs by (apply IHs; lia).
    destruct (scan_once n s) as [[v r]|e]; [|exact Hs]. simpl in Hs.
    pose proof (skip_ws_length r) as W.
    destruct (skip_ws r) as [|c r'] eqn:E; [simpl; discriminate|].
    destruct (c =? RBRACK); [simpl in *; lia|].
    destruct (c =? 44); [|simpl; discriminate].
    pose proof (skip_ws_length r') as W'.
    eapply scanned_longer; [|apply IHa]; simpl in *; lia.
  - intros [|c t] acc Hn; cbn [object_items]; [simpl; discriminate|].
    destruct (c =? DQ); [|simpl; discriminate].
    pose proof (scanstring_scanned _ t [] (le_n _)) as Sc.
    destruct (scanstring t []) as [[k r]|e]; [|exact Sc]. simpl in Sc.
    pose proof (skip_ws_length r) as W.
    destruct (skip_ws r) as [|c1 r1] eqn:E; [simpl; discriminate|].
    destruct (c1 =? 58); [|simpl; discriminate].
    pose proof (skip_ws_length r1) as W1.
    assert (scanned (skip_ws r1) (scan_once n (skip_ws r1))) as Hs
        by (apply IHs; simpl in *; lia).
    destruct (scan_once n (skip_ws r1)) as [[v r2]|e]; [|exact Hs].
    simpl in Hs.
    pose proof (skip_ws_length r2) as W2.
    destruct (skip_ws r2) as [|c2 r3] eqn:E2; [simpl; discriminate|].
    destruct (c2 =? 125); [simpl in *; lia|].
    destruct (c2 =? 44); [|simpl; discriminate].
    pose proof (skip_ws_length r3) as W3.
    eapply scanned_longer; [|apply IHo]; simpl in *; lia.
Qed.

(** [decode] fails with a decoding error or, on an integer literal too
    long to convert, with a [ValueError]: never for want of fuel. *)
Lemma decode_never_out_of_fuel s : decode s <> Raise RecursionError.
Proof.
  unfold decode.
  pose proof (proj1 (decoder_fuel (2 * List.length s + 1)) (skip_ws s)) as H.
  pose proof (skip_ws_length s) as W.
  destruct (scan_once _ (skip_ws s)) as [[v r]|e].
  - destruct (skip_ws r); discriminate.
  - simpl in H. intros [= ->]. apply H; [lia | reflexivity].
Qed.

(** ** Rendered arrays are read back *)

Lemma control_escape_ok c :
  (c <=? 31) = true ->
  hex4 48 48 (hexdigit (c / 16)) (hexdigit (c mod 16)) = Some c
  /\ is_high_surrogate c = false.
Proof.
  intros H. apply N.leb_le in H.
  assert (forallb (fun c => match hex4 48 48 (hexdigit (c / 16))
                                       (hexdigit (c mod 16)) with
                            | Some c' => (c' =? c) && negb (is_high_surrogate c)
                            | None => false
                            end)
                  (map N.of_nat (seq 0 32)) = true) as A by reflexivity.
  rewrite forallb_forall in A.
  specialize (A c).
  assert (In c (map N.of_nat (seq 0 32))) as I.
  { apply in_map_iff. exists (N.to_nat c). split; [apply N2Nat.id|].
    apply in_seq. lia. }
  apply A in I.
  destruct (hex4 _ _ _ _) as [c'|]; [|discriminate].
  apply andb_true_iff in I. destruct I as [I1 I2].
  apply N.eqb_eq in I1. subst c'.
  destruct (is_high_surrogate c); [discriminate|]. split; reflexivity.
Qed.

Lemma scanstring_escape t :
  forall acc rest,
    scanstring (flat_map escape_char t ++ DQ :: rest) acc
    = Ok (rev acc ++ t, rest).
Proof.
  induction t as [|c t IH]; intros acc rest.
  - simpl. rewrite app_nil_r. reflexivity.
  - cbn [flat_map]. unfold escape_char at 1.
    destruct (c =? DQ) eqn:E1.
    { apply N.eqb_eq in E1. subst c. cbn [app]. rewrite scanstring_unfold.
      cbn. rewrite IH. simpl. rewrite <- app_assoc. reflexivity. }
    destruct (c =? BACKSLASH) eqn:E2.
    { apply N.eqb_eq in E2. subst c. cbn [app]. rewrite scanstring_unfold.
      cbn. rewrite IH. simpl. rewrite <- app_assoc. reflexivity. }
    destruct (c <=? 31) eqn:E3.
    { destruct (control_escape_ok c E3) as [Hx Hs].
      cbn [app]. rewrite scanstring_unfold.
      change (BACKSLASH =? DQ) with false.
      change (BACKSLASH =? BACKSLASH) with true.
      change (117 =? 117) with true. cbv iota.
      rewrite Hx, Hs, IH. simpl. rewrite <- app_assoc. reflexivity. }
    cbn [app]. rewrite scanstring_unfold, E1, E2, E3, IH.
    simpl. rewrite <- app_assoc. reflexivity.
Qed.

Lemma scan_once_json_string n t rest :
  scan_once (S n) (json_string t ++ rest) = Ok (PStr t, rest).
Proof.
  unfold json_string, quoted. cbn [app scan_once].
  change (DQ =? DQ) with true. cbv iota.
  rewrite <- app_assoc. cbn [app].
  rewrite (scanstring_escape t []). reflexivity.
Qed.

Lemma json_items_cons t t' l :
  json_items (t :: t' :: l) = json_string t ++ 44 :: 32 :: json_items (t' :: l).
Proof. reflexivity. Qed.

Lemma skip_ws_json_items t l rest :
  skip_ws (json_items (t :: l) ++ rest) = json_items (t :: l) ++ rest.
Proof. destruct l; reflexivity. Qed.

Lemma array_items_unfold n s acc :
  array_items (S n) s acc
  = match scan_once n s with
    | Raise e => Raise e
    | Ok (v, r) =>
        match skip_ws r with
        | c :: r' =>
            if c =? RBRACK then Ok (PList (rev (v :: acc)), r')
            else if c =? 44 then array_items n (skip_ws r') (v :: acc)
            else Raise JSONDecodeError
        | [] => Raise JSONDecodeError
        end
    end.
Proof. reflexivity. Qed.

(** The items of a rendered array are read back one by one. *)
Lemma array_items_strings l :
  forall t n acc rest,
    (List.length l + 1 < n)%nat ->
    array_items n (json_items (t :: l) ++ RBRACK :: rest) acc
    = Ok (PList (rev acc ++ map PStr (t :: l)), rest).
Proof.
  induction l as [|t' l IH]; intros t n acc rest Hn;
    (destruct n as [|[|n]]; [simpl in Hn; lia | simpl in Hn; lia |]);
    rewrite array_items_unfold.
  - cbn [json_items]. rewrite scan_once_json_string. reflexivity.
  - rewrite json_items_cons, <- app_assoc, scan_once_json_string.
    cbn [app]. change (skip_ws (44 :: ?x)) with (44 :: x). cbv iota.
    change (44 =? RBRACK) with false. change (44 =? 44) with true. cbv iota.
    change (skip_ws (32 :: ?x)) with (skip_ws x).
    rewrite skip_ws_json_items, IH by (simpl in *; lia).
    cbn [rev map]. rewrite <- app_assoc. reflexivity.
Qed.

(** [json.loads] reads a rendered array of strings back as that list of
    strings. *)
Lemma json_loads_json_array l :
  json_loads (PStr (json_array l)) = Ok (PList (map PStr l)).
Proof.
  unfold json_array, json_loads, decode.
  change (LBRACK =? 65279) with false. cbv iota.
  change (skip_ws (LBRACK :: ?x)) with (LBRACK :: x).
  remember (2 * List.length (LBRACK :: json_items l ++ [RBRACK]))%nat as m eqn:Em.
  replace (m + 1)%nat with (S m) by lia. cbn [scan_once].
  change (LBRACK =? DQ) with false. change (LBRACK =? 123) with false.
  change (LBRACK =? LBRACK) with true. cbv iota.
  destruct l as [|t l].
  - reflexivity.
  - rewrite skip_ws_json_items.
    assert (exists c r, json_items (t :: l) ++ [RBRACK] = c :: r
                        /\ (c =? RBRACK) = false) as (c & r & E & Hc).
    { destruct l; cbn [json_items]; unfold json_string, quoted; cbn [app];
        eexists _, _; split; reflexivity. }
    rewrite E at 1. rewrite Hc.
    rewrite array_items_strings.
    + reflexivity.
    + assert (List.length l < List.length (json_items (t :: l)))%nat as L.
      { clear. revert t. induction l as [|t' l IH]; intros t.
        - simpl. unfold json_string, quoted. simpl. lia.
        - rewrite json_items_cons, length_app. cbn [List.length].
          specialize (IH t'). lia. }
      subst m. cbn [List.length]. rewrite length_app. lia.
Qed.

(** ** [get_search_terms] *)

Section SearchTermProperties.

Variable World : Type.
Variable create : model -> list message -> World -> result pystr * World.

(** The outcome of one run, given the answer of the service. *)
Lemma get_search_terms_run video_subject amount script st response :
  fst (create gpt_35_turbo_16k_0613
         (user (search_terms_prompt video_subject amount script))
         (service st)) = Ok response ->
  fst (get_search_terms World create video_subject amount script st)
  = match json_loads (PStr response) with
    | Ok v =>
        match str_join (str ", ") v with
        | Ok _ => Ok v
        | Raise e => Raise e
        end
    | Raise _ => Raise TypeError
    end.
Proof.
  unfold get_search_terms, bind, try_except, lift, ChatCompletion_create,
    print, ret, user.
  cbv zeta. intros H.
  destruct (create _ _ _) as [r w]. simpl in H. subst r.
  destruct (json_loads (PStr response)) as [v|e].
  - destruct (str_join (str ", ") v); reflexivity.
  - destruct (is_empty (re_findall LBRACK RBRACK response)); reflexivity.
Qed.

(** A failure of the completion call is the failure of the run. *)
Lemma get_search_terms_service_raises video_subject amount script st e :
  fst (create gpt_35_turbo_16k_0613
         (user (search_terms_prompt video_subject amount script))
         (service st)) = Raise e ->
  fst (get_search_terms World create video_subject amount script st) = Raise e.
Proof.
  unfold get_search_terms, bind, ChatCompletion_create, user.
  cbv zeta. intros H.
  destruct (create _ _ _) as [r w]. simpl in H. subst r. reflexivity.
Qed.

(** A parsed list of strings is returned as it is. *)
Lemma get_search_terms_strings
    video_subject amount script st response terms :
  fst (create gpt_35_turbo_16k_0613
         (user (search_terms_prompt video_subject amount script))
         (service st)) = Ok response ->
  json_loads (PStr response) = Ok (PList (map PStr terms)) ->
  fst (get_search_terms World create video_subject amount script st)
  = Ok (PList (map PStr terms)).
Proof.
  intros H J. rewrite (get_search_terms_run _ _ _ _ _ H), J.
  unfold str_join, iterate.
  destruct (join_items_strings (str ", ") terms) as [r ->]. reflexivity.
Qed.

(** Every list of strings is returned for some answer: for its rendering
    as a JSON array. *)
Lemma get_search_terms_json_array video_subject amount script st terms :
  fst (create gpt_35_turbo_16k_0613
         (user (search_terms_prompt video_subject amount script))
         (service st)) = Ok (json_array terms) ->
  fst (get_search_terms World create video_subject amount script st)
  = Ok (PList (map PStr terms)).
Proof.
  intros H.
  exact (get_search_terms_strings _ _ _ _ _ _ H (json_loads_json_array terms)).
Qed.

(** C5: when the answer is a JSON array of strings, the run returns that
    very sequence, whatever the requested amount and whatever the
    strings are. *)
Theorem get_search_terms_well_formed
    video_subject amount script st response terms :
  fst (create gpt_35_turbo_16k_0613
         (user (search_terms_prompt video_subject amount script))
         (service st)) = Ok response ->
  json_loads (PStr response) = Ok (PList (map PStr terms)) ->
  fst (get_search_terms World create video_subject amount script st)
  = Ok (PList (map PStr terms)).
Proof. apply get_search_terms_strings. Qed.

(** C9: when the first parse fails the run raises, whether or not the
    answer holds a bracketed array: the second parse is handed the list
    of matches and refuses it. *)
Theorem get_search_terms_fallback_raises
    video_subject amount script st response e :
  fst (create gpt_35_turbo_16k_0613
         (user (search_terms_prompt video_subject amount script))
         (service st)) = Ok response ->
  json_loads (PStr response) = Raise e ->
  json_loads (PList (map PStr (re_findall LBRACK RBRACK response)))
  = Raise TypeError
  /\ fst (get_search_terms World create video_subject amount script st)
     = Raise TypeError.
Proof.
  intros H J. split; [reflexivity|].
  rewrite (get_search_terms_run _ _ _ _ _ H), J. reflexivity.
Qed.

(** C10: when the answer parses to an array with an item that is not a
    string, the run raises a [TypeError] and the array is not returned. *)
Theorem get_search_terms_non_string_item
    video_subject amount script st response items x :
  fst (create gpt_35_turbo_16k_0613
         (user (search_terms_prompt video_subject amount script))
         (service st)) = Ok response ->
  json_loads (PStr response) = Ok (PList items) ->
  In x items -> (forall s, x <> PStr s) ->
  fst (get_search_terms World create video_subject amount script st)
  = Raise TypeError.
Proof.
  intros H J Hin Hx. rewrite (get_search_terms_run _ _ _ _ _ H), J.
  unfold str_join, iterate.
  rewrite (join_items_non_str _ _ _ Hin Hx). reflexivity.
Qed.

(** C2, as the code has it: an answer that does not parse and in which
    the pattern matches nothing makes the run raise, and nothing in the
    function catches that.  Other failures reach the caller as well: one
    of the completion call, and one of joining a parsed value that is not
    a collection of strings. *)
Theorem get_search_terms_failures video_subject amount script st :
  let call := create gpt_35_turbo_16k_0613
                (user (search_terms_prompt video_subject amount script))
                (service st) in
  let run := get_search_terms World create video_subject amount script st in
  (forall response e,
      fst call = Ok response ->
      json_loads (PStr response) = Raise e ->
      re_findall LBRACK RBRACK response = [] ->
      fst run = Raise TypeError)
  /\ (forall e, fst call = Raise e -> fst run = Raise e)
  /\ (forall response v e,
         fst call = Ok response ->
         json_loads (PStr response) = Ok v ->
         str_join (str ", ") v = Raise e ->
         fst run = Raise e).
Proof.
  cbv zeta. split; [|split].
  - intros response e H J _.
    rewrite (get_search_terms_run _ _ _ _ _ H), J. reflexivity.
  - intros e H. exact (get_search_terms_service_raises _ _ _ _ _ H).
  - intros response v e H J K.
    rewrite (get_search_terms_run _ _ _ _ _ H), J, K. reflexivity.
Qed.

End SearchTermProperties.

(** C5 on the array of the three strings a, b and c, with two terms
    requested. *)
Lemma get_search_terms_well_formed_witness :
  let response := str "[" ++ quoted (str "a") ++ str "," ++ quoted (str "b")
                    ++ str "," ++ quoted (str "c") ++ str "]" in
  fst (get_search_terms _ replay (str "cats") 2 (str "A script.")
         (fresh [Ok response]))
  = Ok (PList [PStr (str "a"); PStr (str "b"); PStr (str "c")]).
Proof.
  intros response.
  apply (get_search_terms_well_formed _ replay (str "cats") 2
           (str "A script.") (fresh [Ok response]) response
           [str "a"; str "b"; str "c"]); reflexivity.
Defined.

(** C9 on an answer without any bracket. *)
Lemma get_search_terms_fallback_raises_witness :
  let response := str "I cannot help with that." in
  json_loads (PList (map PStr (re_findall LBRACK RBRACK response)))
  = Raise TypeError
  /\ fst (get_search_terms _ replay (str "cats") 3 (str "A script.")
            (fresh [Ok response]))
     = Raise TypeError.
Proof.
  intros response.
  apply (get_search_terms_fallback_raises _ replay (str "cats") 3
           (str "A script.") (fresh [Ok response]) response JSONDecodeError);
    reflexivity.
Defined.

(** C10 on the answer [1, 2]. *)
Lemma get_search_terms_non_string_item_witness :
  fst (get_search_terms _ replay (str "cats") 2 (str "A script.")
         (fresh [Ok (str "[1, 2]")]))
  = Raise TypeError.
Proof.
  apply (get_search_terms_non_string_item _ replay (str "cats") 2
           (str "A script.") (fresh [Ok (str "[1, 2]")]) (str "[1, 2]")
           [PInt 1; PInt 2] (PInt 1)).
  - reflexivity.
  - reflexivity.
  - left; reflexivity.
  - discriminate.
Defined.

(** C2, first part, on an answer without any bracket. *)
Lemma get_search_terms_failures_witness :
  fst (get_search_terms _ replay (str "cats") 3 (str "A script.")
         (fresh [Ok (str "I cannot help with that.")]))
  = Raise TypeError.
Proof.
  apply (proj1 (get_search_terms_failures _ replay (str "cats") 3
                  (str "A script.")
                  (fresh [Ok (str "I cannot help with that.")]))
           (str "I cannot help with that.") JSONDecodeError);
    reflexivity.
Defined.

(** C2 as worded fails: on the answer [1, 2] the first parse succeeds and
    the pattern matches, so an array was found, and the run raises all
    the same. *)
Lemma get_search_terms_only_failure_counterexample :
  let response := str "[1, 2]" in
  json_loads (PStr response) = Ok (PList [PInt 1%Z; PInt 2%Z])
  /\ re_findall LBRACK RBRACK response = [response]
  /\ fst (get_search_terms _ replay (str "cats") 2 (str "A script.")
            (fresh [Ok response]))
     = Raise TypeError.
Proof. repeat split. Qed.

(** C1: on the answer made of the word Sure! and the array of the two
    strings x and y, the pattern finds the array, and
    that text alone would parse to the two terms, but the run raises a
    [TypeError] because the second parse is given the list of matches. *)
Theorem get_search_terms_embedded_array_raises :
  let array := str "[" ++ quoted (str "x") ++ str "," ++ quoted (str "y")
                 ++ str "]" in
  let response := str "Sure! " ++ array in
  re_findall LBRACK RBRACK response = [array]
  /\ json_loads (PStr array) = Ok (PList [PStr (str "x"); PStr (str "y")])
  /\ fst (get_search_terms _ replay (str "cats") 2 (str "A script.")
            (fresh [Ok response]))
     = Raise TypeError.
Proof. repeat split. Qed.

(** ** [generate_metadata] *)

Section MetadataProperties.

Variable World : Type.
Variable create : model -> list message -> World -> result pystr * World.

(** The three calls in order, each started in the state the one before
    left. *)
Lemma generate_metadata_run video_subject script st :
  generate_metadata World create video_subject script st
  = match create gpt_35_turbo_16k_0613 (user (title_prompt video_subject))
            (service st) with
    | (Raise e, w1) => (Raise e, {| service := w1; stdout := stdout st |})
    | (Ok title_response, w1) =>
        match create gpt_35_turbo_16k_0613
                (user (description_prompt video_subject script)) w1 with
        | (Raise e, w2) => (Raise e, {| service := w2; stdout := stdout st |})
        | (Ok description_response, w2) =>
            match get_search_terms World create video_subject 6 script
                    {| service := w2; stdout := stdout st |} with
            | (Ok keywords, st') =>
                (Ok (strip title_response, strip description_response,
                     keywords), st')
            | (Raise e, st') => (Raise e, st')
            end
        end
    end.
Proof.
  unfold generate_metadata, bind, ChatCompletion_create, ret, user.
  cbv zeta.
  destruct (create _ _ (service st)) as [[r1|e1] w1]; [|reflexivity].
  cbn [service stdout].
  destruct (create _ _ w1) as [[r2|e2] w2]; [|reflexivity].
  destruct (get_search_terms _ _ _ _ _ _) as [[k|e] st']; reflexivity.
Qed.

(** C6: the title is the first answer, stripped of surrounding white
    space and otherwise untouched; the description is the second answer,
    treated the same way; the keywords are what [get_search_terms]
    returns for the same subject and script and the amount 6. *)
Theorem generate_metadata_returns
    video_subject script st title_response w1 description_response w2
    keywords st' :
  create gpt_35_turbo_16k_0613 (user (title_prompt video_subject))
         (service st) = (Ok title_response, w1) ->
  create gpt_35_turbo_16k_0613
         (user (description_prompt video_subject script)) w1
  = (Ok description_response, w2) ->
  get_search_terms World create video_subject 6 script
    {| service := w2; stdout := stdout st |} = (Ok keywords, st') ->
  generate_metadata World create video_subject script st
  = (Ok (strip title_response, strip description_response, keywords), st').
Proof.
  intros H1 H2 H3. rewrite generate_metadata_run, H1, H2, H3. reflexivity.
Qed.

(** C8: [generate_metadata] raises exactly when the title call raises,
    or the description call after it, or [get_search_terms] after both,
    and then it raises that same exception. *)
Theorem generate_metadata_fails_exactly video_subject script st e :
  let c1 := create gpt_35_turbo_16k_0613 (user (title_prompt video_subject))
              (service st) in
  let c2 := create gpt_35_turbo_16k_0613
              (user (description_prompt video_subject script)) (snd c1) in
  let k := get_search_terms World create video_subject 6 script
             {| service := snd c2; stdout := stdout st |} in
  fst (generate_metadata World create video_subject script st) = Raise e
  <-> fst c1 = Raise e
      \/ (exists r1, fst c1 = Ok r1 /\ fst c2 = Raise e)
      \/ (exists r1 r2, fst c1 = Ok r1 /\ fst c2 = Ok r2 /\ fst k = Raise e).
Proof.
  cbv zeta. rewrite generate_metadata_run.
  destruct (create _ _ (service st)) as [[r1|e1] w1]; cbn [fst snd].
  - destruct (create _ _ w1) as [[r2|e2] w2]; cbn [fst snd].
    + destruct (get_search_terms _ _ _ _ _ _) as [[kw|e3] st']; cbn [fst].
      * split; [discriminate|].
        intros [H|[[x [_ H]]|[x [y [_ [_ H]]]]]]; discriminate H.
      * split.
        -- intros H. right; right. exists r1, r2.
           split; [reflexivity | split; [reflexivity | congruence]].
        -- intros [H|[[x [_ H]]|[x [y [_ [_ H]]]]]]; congruence.
    + split.
      * intros H. right; left. exists r1. split; [reflexivity | congruence].
      * intros [H|[[x [_ H]]|[x [y [_ [H _]]]]]]; congruence.
  - split.
    + intros H. left. congruence.
    + intros [H|[[x [H _]]|[x [y [H _]]]]]; congruence.
Qed.

End MetadataProperties.

(** C6 on three prepared answers; the asterisks and brackets of the first
    two stay. *)
Lemma generate_metadata_returns_witness :
  let terms := str "[" ++ quoted (str "cat") ++ str ", "
                 ++ quoted (str "kitten") ++ str "]" in
  fst (generate_metadata _ replay (str "cats") (str "A script.")
         (fresh [Ok (str "  **Cats** [1] ");
                 Ok (NL :: str "# About (cats)" ++ [NL]);
                 Ok terms]))
  = Ok (str "**Cats** [1]", str "# About (cats)",
        PList [PStr (str "cat"); PStr (str "kitten")]).
Proof.
  intros terms.
  refine (f_equal fst
            (generate_metadata_returns _ replay (str "cats") (str "A script.")
               (fresh [Ok (str "  **Cats** [1] ");
                       Ok (NL :: str "# About (cats)" ++ [NL]);
                       Ok terms])
               _ _ _ _ _ _ eq_refl eq_refl eq_refl)).
Defined.

(** * Further properties *)

(** ** What the cleaning of [generate_script] leaves *)

Lemma match_len_skip c t :
  forall k, match_len c t = Some k ->
            (k <= List.length t)%nat
            /\ match_len c (skipn k t) = None
            /\ ~ In NL (firstn k t).
Proof.
  induction t as [|x t IH]; simpl; intros k; [discriminate|].
  destruct (N.eqb_spec x NL) as [->|Hx]; [discriminate|].
  destruct (match_len c t) as [k'|] eqn:E.
  - intros [= <-]. destruct (IH _ eq_refl) as (H1 & H2 & H3).
    simpl. repeat split; [lia | exact H2 | intros [H|H]; auto].
  - destruct (x =? c); [|discriminate]. intros [= <-]. simpl.
    repeat split; [lia | exact E | intros [H|[]]; auto].
Qed.

Lemma match_len_none_head c x t :
  x <> NL -> match_len c (x :: t) = None ->
  x <> c /\ match_len c t = None.
Proof.
  simpl. intros Hx. destruct (N.eqb_spec x NL) as [E|_]; [contradiction|].
  destruct (match_len c t); [discriminate|].
  destruct (N.eqb_spec x c); [discriminate|]. auto.
Qed.

(** What the substitution leaves has no span left. *)
Lemma spans_scan o c s :
  o <> NL ->
  forall k seen,
    (k = 0%nat /\ seen = false)
    \/ ((k <= List.length s)%nat /\ match_len c (skipn k s) = None) ->
    spans o c seen (literals (scan o c k s)) = false.
Proof.
  intros Ho. induction s as [|x t IH]; intros k seen H; [destruct k; reflexivity|].
  destruct k as [|k].
  - cbn [scan]. destruct H as [[_ ->]|[_ H]].
    + destruct (N.eqb_spec x o) as [->|Hxo].
      * destruct (match_len c t) as [k|] eqn:E.
        -- cbn [literals]. apply IH. right.
           destruct (match_len_skip _ _ _ E) as (H1 & H2 & _). auto.
        -- cbn [literals spans].
           destruct (N.eqb_spec o NL) as [E'|_]; [contradiction|].
           cbn. apply IH. right. split; [lia | exact E].
      * cbn [literals spans].
        destruct (x =? NL); [apply IH; auto|].
        cbn. destruct (N.eqb_spec x o) as [E'|_]; [contradiction|].
        apply IH. auto.
    + cbn [skipn] in H.
      assert (literals (if x =? o
                        then match match_len c t with
                             | Some k => Match (x :: firstn k t) :: scan o c k t
                             | None => Lit x :: scan o c 0 t
                             end
                        else Lit x :: scan o c 0 t)
              = x :: literals (scan o c 0 t)) as ->.
      { destruct (N.eqb_spec x NL) as [->|Hx].
        - destruct (N.eqb_spec NL o) as [E|_]; [congruence | reflexivity].
        - destruct (match_len_none_head _ _ _ Hx H) as [_ ->].
          destruct (x =? o); reflexivity. }
      cbn [spans]. destruct (N.eqb_spec x NL) as [->|Hx]; [apply IH; auto|].
      destruct (match_len_none_head _ _ _ Hx H) as [Hc Hm].
      destruct (N.eqb_spec x c) as [E|_]; [contradiction|].
      rewrite andb_false_r. apply IH. right. split; [lia | exact Hm].
  - cbn [scan]. destruct H as [[H _]|[H1 H2]]; [discriminate|].
    apply IH. right. simpl in H1. split; [lia | exact H2].
Qed.

Lemma spans_re_sub o c s : o <> NL -> spans o c false (re_sub o c s) = false.
Proof. intros Ho. apply spans_scan; auto. Qed.

Lemma erased_refl s : erased s s.
Proof. induction s; constructor; assumption. Qed.

Lemma erased_trans a b : erased a b -> forall d, erased b d -> erased a d.
Proof.
  intros Hab d Hbd. revert a Hab.
  induction Hbd as [|x b d Hbd IH|x b d Hx Hbd IH]; intros a Hab.
  - exact Hab.
  - inversion Hab; subst; constructor; auto.
  - constructor; auto.
Qed.

Lemma erased_scan o c s :
  o <> NL ->
  forall k, (k <= List.length s)%nat -> ~ In NL (firstn k s) ->
            erased (literals (scan o c k s)) s.
Proof.
  intros Ho. induction s as [|x t IH]; intros k Hk Hn.
  - destruct k; constructor.
  - destruct k as [|k]; cbn [scan].
    + destruct (N.eqb_spec x o) as [->|Hxo].
      * destruct (match_len c t) as [k|] eqn:E; cbn [literals].
        -- destruct (match_len_skip _ _ _ E) as (H1 & _ & H3).
           apply erased_drop; [exact Ho|]. apply IH; assumption.
        -- apply erased_keep. apply IH; simpl; [lia | tauto].
      * cbn [literals]. apply erased_keep. apply IH; simpl; [lia | tauto].
    + simpl in Hk, Hn. apply erased_drop; [intuition congruence|].
      apply IH; [lia | tauto].
Qed.

Lemma erased_re_sub o c s : o <> NL -> erased (re_sub o c s) s.
Proof. intros Ho. apply erased_scan; simpl; [exact Ho | lia | tauto]. Qed.

Lemma erased_remove_char c s : c <> NL -> erased (remove_char c s) s.
Proof.
  intros Hc. induction s as [|x s IH]; simpl; [constructor|].
  destruct (N.eqb_spec x c) as [->|_]; simpl; constructor; assumption.
Qed.

Lemma erased_cleaned response : erased (cleaned response) response.
Proof.
  unfold cleaned.
  eapply erased_trans; [apply erased_re_sub; discriminate|].
  eapply erased_trans; [apply erased_re_sub; discriminate|].
  eapply erased_trans; apply erased_remove_char; discriminate.
Qed.

Lemma spans_seen o c s b :
  spans o c b s = true -> spans o c true s = true.
Proof.
  revert b. induction s as [|x t IH]; intros b; simpl; [discriminate|].
  destruct (x =? NL); [tauto|].
  destruct (x =? c); [rewrite andb_true_r; destruct b; intros; auto; eapply IH; eauto|].
  rewrite !andb_false_r. apply IH.
Qed.

Lemma spans_erased o c s' s :
  erased s' s -> forall b, spans o c b s' = true -> spans o c b s = true.
Proof.
  induction 1 as [|x s' s H IH|x s' s Hx H IH]; intros b; simpl.
  - discriminate.
  - destruct (x =? NL); [apply IH|].
    destruct (b && (x =? c)); [reflexivity | apply IH].
  - destruct (N.eqb_spec x NL) as [E|_]; [contradiction|].
    intros Hs. apply IH in Hs.
    destruct (b && (x =? c)); [reflexivity|].
    destruct b; simpl; [exact Hs|].
    destruct (x =? o); [eapply spans_seen; eauto | exact Hs].
Qed.

Lemma spans_after_open o c mid post :
  ~ In NL mid -> c <> NL -> spans o c true (mid ++ c :: post) = true.
Proof.
  intros Hm Hc. induction mid as [|x mid IH]; simpl.
  - destruct (N.eqb_spec c NL) as [E|_]; [contradiction|].
    rewrite N.eqb_refl. reflexivity.
  - destruct (N.eqb_spec x NL) as [->|_]; [simpl in Hm; tauto|].
    destruct (x =? c); [reflexivity|]. apply IH. simpl in Hm. tauto.
Qed.

(** A bracketed stretch within one line is a span. *)
Lemma spans_exists o c pre mid post b :
  o <> NL -> c <> NL -> ~ In NL mid ->
  spans o c b (pre ++ o :: mid ++ c :: post) = true.
Proof.
  intros Ho Hc Hm. revert b. induction pre as [|x pre IH]; intros b; simpl.
  - destruct (N.eqb_spec o NL) as [E|_]; [contradiction|].
    destruct (b && (o =? c)); [reflexivity|].
    rewrite N.eqb_refl, orb_true_r. apply spans_after_open; assumption.
  - destruct (x =? NL); [apply IH|].
    destruct (b && (x =? c)); [reflexivity | apply IH].
Qed.

Lemma spans_snoc o c x s :
  x <> c -> forall b, spans o c b (s ++ [x]) = spans o c b s.
Proof.
  intros Hx. induction s as [|y s IH]; intros b; simpl.
  - destruct (x =? NL); [reflexivity|].
    destruct (N.eqb_spec x c) as [E|_]; [contradiction|].
    rewrite andb_false_r. reflexivity.
  - destruct (y =? NL); [apply IH|].
    destruct (b && (y =? c)); [reflexivity | apply IH].
Qed.

Lemma spans_match_len o c t :
  spans o c true t = false -> match_len c t = None.
Proof.
  induction t as [|x t IH]; simpl; [reflexivity|].
  destruct (x =? NL); [reflexivity|].
  destruct (x =? c); [discriminate|]. simpl.
  intros H. rewrite (IH H). reflexivity.
Qed.

(** A text without span is left as it is. *)
Lemma scan_spanless o c s :
  o <> NL ->
  forall b, spans o c b s = false -> scan o c 0 s = map Lit s.
Proof.
  intros Ho. induction s as [|x t IH]; intros b; simpl; [reflexivity|].
  destruct (N.eqb_spec x NL) as [->|Hx].
  - destruct (N.eqb_spec NL o) as [E|_]; [congruence|].
    intros H. rewrite (IH _ H). reflexivity.
  - destruct (b && (x =? c)); [discriminate|].
    intros H. rewrite (IH _ H).
    destruct (N.eqb_spec x o) as [->|_]; [|reflexivity].
    rewrite orb_true_r in H. rewrite (spans_match_len _ _ _ H). reflexivity.
Qed.

Lemma re_sub_spanless o c s :
  o <> NL -> spans o c false s = false -> re_sub o c s = s.
Proof.
  intros Ho H. unfold re_sub. rewrite (scan_spanless o c s Ho _ H).
  apply literals_map_Lit.
Qed.

Lemma remove_char_absent c s : ~ In c s -> remove_char c s = s.
Proof.
  induction s as [|x s IH]; simpl; intros H; [reflexivity|].
  destruct (N.eqb_spec x c) as [->|_]; [tauto|]. simpl.
  rewrite IH by tauto. reflexivity.
Qed.

Lemma spans_false_erased o c s' s :
  erased s' s -> spans o c false s = false -> spans o c false s' = false.
Proof.
  intros He Hs. destruct (spans o c false s') eqn:E; [|reflexivity].
  rewrite (spans_erased o c _ _ He _ E) in Hs. discriminate.
Qed.

Lemma cleaned_spanless response :
  spans LBRACK RBRACK false (cleaned response) = false
  /\ spans LPAREN RPAREN false (cleaned response) = false.
Proof.
  unfold cleaned. split.
  - eapply spans_false_erased; [apply erased_re_sub; discriminate|].
    apply spans_re_sub. discriminate.
  - apply spans_re_sub. discriminate.
Qed.

Lemma cleaned_absent response :
  ~ In STAR (cleaned response) /\ ~ In HASH (cleaned response).
Proof.
  unfold cleaned. split; intros H;
    apply re_sub_In, re_sub_In, remove_char_In in H; destruct H as [H1 H].
  - apply remove_char_In in H. destruct H as [H _]. congruence.
  - congruence.
Qed.

(** Cleaning a cleaned text changes nothing. *)
Lemma cleaned_cleaned response : cleaned (cleaned response) = cleaned response.
Proof.
  destruct (cleaned_spanless response) as [H1 H2].
  destruct (cleaned_absent response) as [H3 H4].
  unfold cleaned at 1.
  rewrite (remove_char_absent STAR _ H3), (remove_char_absent HASH _ H4).
  rewrite (re_sub_spanless LBRACK RBRACK _ ltac:(discriminate) H1).
  apply (re_sub_spanless LPAREN RPAREN _ ltac:(discriminate) H2).
Qed.

Lemma erased_count s' s :
  erased s' s -> count_occ N.eq_dec s' NL = count_occ N.eq_dec s NL.
Proof.
  induction 1 as [|x s' s H IH|x s' s Hx H IH]; simpl; [reflexivity| |].
  - destruct (N.eq_dec x NL); congruence.
  - destruct (N.eq_dec x NL); [contradiction | exact IH].
Qed.

Lemma erased_length s' s : erased s' s -> (List.length s' <= List.length s)%nat.
Proof. induction 1; simpl; lia. Qed.

Lemma bracketed_cons o c x s : bracketed o c s -> bracketed o c (x :: s).
Proof.
  intros (pre & mid & post & -> & H). exists (x :: pre), mid, post. auto.
Qed.

Lemma spans_decompose o c s :
  forall b, spans o c b s = true ->
            (b = true /\ exists mid post, s = mid ++ c :: post /\ ~ In NL mid)
            \/ bracketed o c s.
Proof.
  induction s as [|x t IH]; intros b; simpl; [discriminate|].
  destruct (N.eqb_spec x NL) as [->|Hx].
  - intros H. apply IH in H. destruct H as [[H _]|H]; [discriminate|].
    right. apply bracketed_cons, H.
  - destruct b; simpl.
    + destruct (N.eqb_spec x c) as [->|Hc].
      * intros _. left. split; [reflexivity|]. exists [], t. auto.
      * intros H. apply IH in H.
        destruct H as [[_ (mid & post & -> & Hm)]|H].
        -- left. split; [reflexivity|]. exists (x :: mid), post.
           split; [reflexivity|]. simpl. intuition.
        -- right. apply bracketed_cons, H.
    + intros H. apply IH in H.
      destruct H as [[Hb (mid & post & -> & Hm)]|H].
      * right. apply N.eqb_eq in Hb. subst x. exists [], mid, post. auto.
      * right. apply bracketed_cons, H.
Qed.

(** [spans] decides [bracketed]. *)
Lemma spans_bracketed o c s :
  o <> NL -> c <> NL -> (spans o c false s = true <-> bracketed o c s).
Proof.
  intros Ho Hc. split.
  - intros H. apply spans_decompose in H.
    destruct H as [[H _]|H]; [discriminate | exact H].
  - intros (pre & mid & post & -> & H). apply spans_exists; assumption.
Qed.

Lemma not_bracketed_spans o c s :
  o <> NL -> c <> NL -> ~ bracketed o c s -> spans o c false s = false.
Proof.
  intros Ho Hc H. destruct (spans o c false s) eqn:E; [|reflexivity].
  elim H. apply spans_bracketed; assumption.
Qed.

Lemma spans_not_bracketed o c s :
  o <> NL -> c <> NL -> spans o c false s = false -> ~ bracketed o c s.
Proof.
  intros Ho Hc H B. apply spans_bracketed in B; [congruence | assumption..].
Qed.

Section ScriptExtras.

Variable World : Type.
Variable create : model -> list message -> World -> result pystr * World.

(** Whatever a run returned, the service had answered. *)
Lemma generate_script_answered video_subject st s :
  fst (generate_script World create video_subject st) = Ok (Some s) ->
  exists response w,
    create gpt_35_turbo_16k_0613 (user (script_prompt video_subject))
           (service st) = (Ok response, w)
    /\ response <> [] /\ s = cleaned response ++ [SPACE].
Proof.
  destruct (create gpt_35_turbo_16k_0613 (user (script_prompt video_subject))
              (service st)) as [[response|e] w] eqn:E.
  - rewrite (generate_script_run _ _ _ _ _ _ E).
    destruct response as [|a r]; [discriminate|].
    intros [= <-]. exists (a :: r), w. repeat split. discriminate.
  - unfold generate_script, bind, ChatCompletion_create, user in *.
    cbv zeta. rewrite E. discriminate.
Qed.

(** X1: a failure of the completion call is the failure of
    [generate_script]: the same exception reaches the caller, the
    service is left as the call left it, and nothing is printed. *)
Theorem generate_script_service_raises video_subject st e w :
  create gpt_35_turbo_16k_0613 (user (script_prompt video_subject))
         (service st) = (Raise e, w) ->
  generate_script World create video_subject st
  = (Raise e, {| service := w; stdout := stdout st |}).
Proof.
  intros E. unfold generate_script, bind, ChatCompletion_create, user in *.
  cbv zeta. rewrite E. reflexivity.
Qed.

(** X2: a returned script is the answer of the service with some
    characters other than line feeds taken out, followed by one space:
    nothing is added but that space, nothing is reordered, and the
    script is never the empty string. *)
Theorem generate_script_only_erases video_subject st s :
  fst (generate_script World create video_subject st) = Ok (Some s) ->
  exists response t,
    fst (create gpt_35_turbo_16k_0613 (user (script_prompt video_subject))
           (service st)) = Ok response
    /\ s = t ++ [SPACE] /\ erased t response.
Proof.
  intros H. destruct (generate_script_answered _ _ _ H)
    as (response & w & E & _ & ->).
  exists response, (cleaned response). rewrite E.
  repeat split. apply erased_cleaned.
Qed.

(** X3: the script has as many line feeds as the answer, and at most one
    character more than the answer. *)
Theorem generate_script_keeps_lines video_subject st response w s :
  create gpt_35_turbo_16k_0613 (user (script_prompt video_subject))
         (service st) = (Ok response, w) ->
  fst (generate_script World create video_subject st) = Ok (Some s) ->
  count_occ N.eq_dec s NL = count_occ N.eq_dec response NL
  /\ (List.length s <= List.length response + 1)%nat.
Proof.
  intros E H. destruct (generate_script_answered _ _ _ H)
    as (response' & w' & E' & _ & ->).
  rewrite E in E'. injection E' as <- <-.
  pose proof (erased_cleaned response) as He.
  pose proof (erased_length _ _ He) as Hl.
  pose proof (erased_count _ _ He) as Hc.
  split.
  - rewrite count_occ_app. change (@count_occ char) with (@count_occ N).
    rewrite Hc. change [SPACE] with (SPACE :: @nil N).
    rewrite (count_occ_cons_neq N.eq_dec) by discriminate.
    simpl. lia.
  - rewrite length_app. cbn. lia.
Qed.

(** X4: in a returned script no opening square bracket is followed by a
    closing one on the same line, and no opening parenthesis by a closing
    one on the same line. *)
Theorem generate_script_no_span_left video_subject st s :
  fst (generate_script World create video_subject st) = Ok (Some s) ->
  ~ bracketed LBRACK RBRACK s /\ ~ bracketed LPAREN RPAREN s.
Proof.
  intros H. destruct (generate_script_answered _ _ _ H)
    as (response & w & _ & _ & ->).
  destruct (cleaned_spanless response) as [H1 H2].
  split; apply spans_not_bracketed; try discriminate;
    rewrite spans_snoc by discriminate; assumption.
Qed.

(** X5: an answer that is not empty, holds neither asterisk nor hash
    sign, and has no bracketed stretch within a line, is returned as it
    is, followed by one space. *)
Theorem generate_script_clean_answer video_subject st response w :
  create gpt_35_turbo_16k_0613 (user (script_prompt video_subject))
         (service st) = (Ok response, w) ->
  response <> [] ->
  ~ In STAR response -> ~ In HASH response ->
  ~ bracketed LBRACK RBRACK response ->
  ~ bracketed LPAREN RPAREN response ->
  fst (generate_script World create video_subject st)
  = Ok (Some (response ++ [SPACE])).
Proof.
  intros E Hr Hs Hh Hb Hp. rewrite (generate_script_run _ _ _ _ _ _ E).
  destruct response as [|a r]; [congruence|]. cbn [fst].
  unfold cleaned.
  rewrite (remove_char_absent STAR _ Hs), (remove_char_absent HASH _ Hh).
  rewrite (re_sub_spanless LBRACK RBRACK) by
    (try apply not_bracketed_spans; try discriminate; assumption).
  rewrite (re_sub_spanless LPAREN RPAREN) by
    (try apply not_bracketed_spans; try discriminate; assumption).
  reflexivity.
Qed.

End ScriptExtras.

(** X6: the cleaning is idempotent: cleaned once more, a cleaned text
    stays as it is. *)
Theorem cleaning_idempotent response :
  re_sub LPAREN RPAREN
    (re_sub LBRACK RBRACK
       (remove_char HASH (remove_char STAR (cleaned response))))
  = cleaned response.
Proof. exact (cleaned_cleaned response). Qed.

(** ** What [get_search_terms] and [generate_metadata] return *)

Lemma join_items_all_str sep l :
  forallb is_str l = true -> exists r, join_items sep l = Ok r.
Proof.
  induction l as [|a l IH]; simpl; [eexists; reflexivity|].
  destruct a; try discriminate. simpl. intros H.
  destruct (IH H) as [r Hr]. destruct l as [|b l]; [eexists; reflexivity|].
  rewrite Hr. eexists; reflexivity.
Qed.

Lemma join_items_not_all_str sep l :
  forallb is_str l = false -> join_items sep l = Raise TypeError.
Proof.
  induction l as [|a l IH]; simpl; [discriminate|].
  destruct a; try reflexivity. simpl. intros H.
  destruct l as [|b l]; [discriminate|]. rewrite (IH H). reflexivity.
Qed.

Lemma str_join_joinable sep v :
  joinable v = true -> exists r, str_join sep v = Ok r.
Proof.
  unfold str_join. destruct v; simpl; try discriminate.
  - intros _. apply join_items_all_str. induction s; simpl; auto.
  - apply join_items_all_str.
  - intros _. apply join_items_all_str. induction d; simpl; auto.
Qed.

Lemma str_join_not_joinable sep v :
  joinable v = false -> str_join sep v = Raise TypeError.
Proof.
  unfold str_join. destruct v; simpl; try discriminate; try reflexivity.
  apply join_items_not_all_str.
Qed.

Lemma str_join_raises sep v e : str_join sep v = Raise e -> e = TypeError.
Proof.
  destruct (joinable v) eqn:J.
  - destruct (str_join_joinable sep v J) as [r ->]. discriminate.
  - rewrite (str_join_not_joinable sep v J). congruence.
Qed.

(** A text that does not begin like a value is no JSON. *)
Lemma scan_once_no_start n c r :
  value_start c = false -> scan_once (S n) (c :: r) = Raise JSONDecodeError.
Proof.
  unfold value_start. intros H. repeat rewrite orb_false_iff in H.
  destruct H as [[[[[[[[[H1 H2] H3] H4] H5] H6] H7] H8] H9] H10].
  cbn [scan_once]. rewrite H1, H2, H3.
  assert (match_constant constants (c :: r) = None) as ->.
  { unfold constants. cbn [match_constant strip_prefix str].
    change (N_of_ascii "n") with 110. change (N_of_ascii "t") with 116.
    change (N_of_ascii "f") with 102. change (N_of_ascii "N") with 78.
    change (N_of_ascii "I") with 73. change (N_of_ascii "-") with 45.
    rewrite (N.eqb_sym 110), (N.eqb_sym 116), (N.eqb_sym 102),
      (N.eqb_sym 78), (N.eqb_sym 73), (N.eqb_sym 45).
    rewrite H6, H7, H8, H9, H10, H4. reflexivity. }
  unfold match_number, integer_part. rewrite H4, H5.
  destruct (N.eqb_spec c 48) as [->|_]; [discriminate H5 | reflexivity].
Qed.

Lemma json_loads_no_start s :
  starts_value s = false -> json_loads (PStr s) = Raise JSONDecodeError.
Proof.
  unfold starts_value. intros H.
  assert (decode s = Raise JSONDecodeError) as D.
  { unfold decode. replace (2 * List.length s + 1)%nat
      with (S (2 * List.length s)) by lia.
    destruct (skip_ws s) as [|c r].
    - reflexivity.
    - rewrite (scan_once_no_start _ _ _ H). reflexivity. }
  simpl. destruct s as [|c t]; [exact D|].
  destruct (c =? 65279); [reflexivity | exact D].
Qed.

Lemma lstrip_spec s :
  exists l, s = l ++ lstrip s /\ all_space l
            /\ forall x t, lstrip s = x :: t -> isspace x = false.
Proof.
  induction s as [|c s (l & E & Hl & Hx)]; simpl.
  - exists []. repeat split; [constructor | discriminate].
  - destruct (isspace c) eqn:S.
    + exists (c :: l). repeat split.
      * simpl. congruence.
      * constructor; assumption.
      * exact Hx.
    + exists []. repeat split; [constructor|].
      intros x t [= <- _]. exact S.
Qed.

Lemma rstrip_spec s :
  exists r, s = rstrip s ++ r /\ all_space r
            /\ forall x t, rstrip s = t ++ [x] -> isspace x = false.
Proof.
  unfold rstrip. destruct (lstrip_spec (rev s)) as (l & E & Hl & Hx).
  exists (rev l). repeat split.
  - rewrite <- rev_app_distr, <- E, rev_involutive. reflexivity.
  - apply Forall_rev. exact Hl.
  - intros x t H. apply (Hx x (rev t)).
    rewrite <- (rev_involutive (lstrip (rev s))), H, rev_app_distr.
    reflexivity.
Qed.

(** [strip] takes white space from the two ends and nothing else, and
    leaves none at either end. *)
Lemma strip_spec s :
  (exists l r, s = l ++ strip s ++ r /\ all_space l /\ all_space r)
  /\ trimmed (strip s).
Proof.
  unfold strip.
  destruct (lstrip_spec s) as (l & E & Hl & Hx).
  destruct (rstrip_spec (lstrip s)) as (r & E' & Hr & Hx').
  split.
  - exists l, r. rewrite <- E', <- E. auto.
  - split; [|exact Hx'].
    intros x t H. apply (Hx x (t ++ r)). rewrite E' at 1. rewrite H.
    reflexivity.
Qed.

Section SearchTermExtras.

Variable World : Type.
Variable create : model -> list message -> World -> result pystr * World.

(** X7: given an answer of the service, [get_search_terms] returns a
    value exactly when the answer parses as JSON to a string, an object
    or an array of strings, and what it returns is the parsed value: not
    always a list. *)
Theorem get_search_terms_returns_iff
    video_subject amount script st response v :
  fst (create gpt_35_turbo_16k_0613
         (user (search_terms_prompt video_subject amount script))
         (service st)) = Ok response ->
  fst (get_search_terms World create video_subject amount script st) = Ok v
  <-> json_loads (PStr response) = Ok v /\ joinable v = true.
Proof.
  intros H. rewrite (get_search_terms_run _ _ _ _ _ _ _ H).
  destruct (json_loads (PStr response)) as [v'|e].
  - destruct (joinable v') eqn:J.
    + destruct (str_join_joinable (str ", ") v' J) as [r ->].
      split; [intros [= <-]; auto | intros [[= <-] _]; reflexivity].
    + rewrite (str_join_not_joinable _ _ J).
      split; [discriminate | intros [[= <-] J']; congruence].
  - split; [discriminate | intros [E _]; discriminate E].
Qed.

(** X8: given an answer of the service, the only exception
    [get_search_terms] raises is a [TypeError]: a parse error of the
    answer never reaches the caller as such. *)
Theorem get_search_terms_raises_type_error
    video_subject amount script st response e :
  fst (create gpt_35_turbo_16k_0613
         (user (search_terms_prompt video_subject amount script))
         (service st)) = Ok response ->
  fst (get_search_terms World create video_subject amount script st)
  = Raise e ->
  e = TypeError.
Proof.
  intros H. rewrite (get_search_terms_run _ _ _ _ _ _ _ H).
  destruct (json_loads (PStr response)) as [v|e'].
  - destruct (str_join (str ", ") v) as [r|e'] eqn:J; [discriminate|].
    intros [= <-]. exact (str_join_raises _ _ _ J).
  - congruence.
Qed.

(** X9: an answer that, after its leading white space, is empty or does
    not begin like a JSON value (a word of prose, a code fence) makes
    [get_search_terms] raise a [TypeError]. *)
Theorem get_search_terms_prose_raises
    video_subject amount script st response :
  fst (create gpt_35_turbo_16k_0613
         (user (search_terms_prompt video_subject amount script))
         (service st)) = Ok response ->
  starts_value response = false ->
  fst (get_search_terms World create video_subject amount script st)
  = Raise TypeError.
Proof.
  intros H S. rewrite (get_search_terms_run _ _ _ _ _ _ _ H).
  rewrite (json_loads_no_start _ S). reflexivity.
Qed.

(** X10: when the answer does not parse, the run prints the yellow
    notice, then the red one exactly when the pattern matches nothing,
    prints nothing else, and leaves the service as the call left it. *)
Theorem get_search_terms_fallback_trace
    video_subject amount script st response w e :
  create gpt_35_turbo_16k_0613
         (user (search_terms_prompt video_subject amount script))
         (service st) = (Ok response, w) ->
  json_loads (PStr response) = Raise e ->
  snd (get_search_terms World create video_subject amount script st)
  = {| service := w;
       stdout :=
         stdout st
         ++ {| text := str "[*] GPT returned an unformatted response. Attempting to clean...";
               shade := yellow |}
         :: (if is_empty (re_findall LBRACK RBRACK response)
             then [{| text := str "[-] Could not parse response.";
                      shade := red |}]
             else []) |}.
Proof.
  intros H J.
  unfold get_search_terms, bind, try_except, lift, ChatCompletion_create,
    print, ret, user in *.
  cbv zeta. rewrite H, J.
  destruct (is_empty (re_findall LBRACK RBRACK response)); cbn [snd service stdout].
  - rewrite <- app_assoc. reflexivity.
  - reflexivity.
Qed.

End SearchTermExtras.

Section MetadataExtras.

Variable World : Type.
Variable create : model -> list message -> World -> result pystr * World.

(** X11: the title and the description that [generate_metadata] returns
    have no white space at either end. *)
Theorem generate_metadata_trimmed
    video_subject script st title description keywords :
  fst (generate_metadata World create video_subject script st)
  = Ok (title, description, keywords) ->
  trimmed title /\ trimmed description.
Proof.
  rewrite generate_metadata_run.
  destruct (create _ _ (service st)) as [[r1|e1] w1]; [|discriminate].
  destruct (create _ _ w1) as [[r2|e2] w2]; [|discriminate].
  destruct (get_search_terms _ _ _ _ _ _) as [[k|e3] st']; [|discriminate].
  intros [= <- <- _]. split; apply strip_spec.
Qed.

(** X12: the title is the first answer without some white space at its
    two ends, and the description is the second answer without some
    white space at its two ends: nothing inside is touched. *)
Theorem generate_metadata_only_trims
    video_subject script st title_response w1 description_response w2
    title description keywords :
  create gpt_35_turbo_16k_0613 (user (title_prompt video_subject))
         (service st) = (Ok title_response, w1) ->
  create gpt_35_turbo_16k_0613
         (user (description_prompt video_subject script)) w1
  = (Ok description_response, w2) ->
  fst (generate_metadata World create video_subject script st)
  = Ok (title, description, keywords) ->
  (exists l r, title_response = l ++ title ++ r
               /\ all_space l /\ all_space r)
  /\ (exists l r, description_response = l ++ description ++ r
                  /\ all_space l /\ all_space r).
Proof.
  intros H1 H2. rewrite generate_metadata_run, H1, H2.
  destruct (get_search_terms _ _ _ _ _ _) as [[k|e3] st']; [|discriminate].
  intros [= <- <- _]. split; apply strip_spec.
Qed.

(** X13: when the two completion calls succeed and the third answer does
    not parse, [generate_metadata] raises a [TypeError]: the title and
    the description it had obtained are lost. *)
Theorem generate_metadata_keywords_unparsed
    video_subject script st title_response w1 description_response w2
    response e :
  create gpt_35_turbo_16k_0613 (user (title_prompt video_subject))
         (service st) = (Ok title_response, w1) ->
  create gpt_35_turbo_16k_0613
         (user (description_prompt video_subject script)) w1
  = (Ok description_response, w2) ->
  fst (create gpt_35_turbo_16k_0613
         (user (search_terms_prompt video_subject 6 script)) w2)
  = Ok response ->
  json_loads (PStr response) = Raise e ->
  fst (generate_metadata World create video_subject script st)
  = Raise TypeError.
Proof.
  intros H1 H2 H3 J. rewrite generate_metadata_run, H1, H2.
  pose proof (get_search_terms_run World create video_subject 6 script
                {| service := w2; stdout := stdout st |} response H3) as R.
  rewrite J in R.
  destruct (get_search_terms _ _ _ _ _ _) as [[k|e3] st']; simpl in R;
    [discriminate | injection R as ->; reflexivity].
Qed.

End MetadataExtras.

(** X14: for every list of strings, when the service answers with its
    rendering as a JSON array, [get_search_terms] returns that list. *)
Theorem get_search_terms_round_trip
    World (create : model -> list message -> World -> result pystr * World)
    video_subject amount script st terms :
  fst (create gpt_35_turbo_16k_0613
         (user (search_terms_prompt video_subject amount script))
         (service st)) = Ok (json_array terms) ->
  fst (get_search_terms World create video_subject amount script st)
  = Ok (PList (map PStr terms)).
Proof.
  intros H.
  exact (get_search_terms_strings _ _ _ _ _ _ _ _ H
           (json_loads_json_array terms)).
Qed.

(** ** White space around the answer *)

Lemma ws_cases y : is_ws y = true -> y = 32 \/ y = 9 \/ y = 10 \/ y = 13.
Proof.
  unfold is_ws. intros H. repeat rewrite orb_true_iff in H.
  destruct H as [[[H|H]|H]|H]; apply N.eqb_eq in H; auto.
Qed.

Lemma ws_facts y :
  is_ws y = true ->
  (y =? DQ) = false /\ (y =? BACKSLASH) = false /\ (y =? 117) = false
  /\ unescape y = None /\ hexval y = None /\ is_digit y = false
  /\ (forall acc, scanstring [y] acc = Raise JSONDecodeError).
Proof.
  intros H. destruct (ws_cases y H) as [-> | [-> | [-> | ->]]]; repeat split.
Qed.

Section OneMore.

Variable y : char.
Hypothesis Hy : is_ws y = true.

Ltac list_step :=
  match goal with
  | |- context [match ?l ++ [y] with _ => _ end] =>
      is_var l; destruct l as [|? ?]; cbn [app]; cbv beta iota
  end.

Ltac other_step :=
  match goal with
  | |- context [match ?x with _ => _ end] =>
      lazymatch x with
      | _ ++ _ => fail
      | _ => destruct x eqn:?
      end
  | |- context [if ?x then _ else _] => destruct x eqn:?
  end.

Lemma scanstring_one_more n :
  forall s acc, (List.length s <= n)%nat ->
                scanstring (s ++ [y]) acc = extend [y] (scanstring s acc).
Proof.
  destruct (ws_facts y Hy) as (F1 & F2 & F3 & F4 & F5 & F6 & F7).
  induction n as [|n IH]; intros s acc Hn.
  - destruct s; [apply F7 | simpl in Hn; lia].
  - destruct s as [|c t]; [apply F7|].
    cbn [app]. rewrite !scanstring_unfold. unfold hex4. simpl in Hn.
    repeat first
      [ list_step
      | progress (rewrite ?F1, ?F2, ?F3, ?F4, ?F5; cbv beta iota)
      | other_step ];
      try reflexivity;
      try (match goal with
           | |- scanstring _ ?a = extend _ (scanstring ?S ?a) =>
               refine (IH S a _); simpl in *; lia
           end).
    + exfalso.
      match goal with
      | H : match hexval _ with _ => _ end = Some _ |- _ =>
          revert H;
          repeat match goal with
                 | |- context [match hexval ?a with _ => _ end] =>
                     destruct (hexval a)
                 end;
          discriminate
      end.
    + match goal with
      | H : (_ =? BACKSLASH) && (_ =? 117) = true |- _ =>
          apply andb_true_iff in H; destruct H as [A B];
          apply N.eqb_eq in A, B; subst
      end.
      reflexivity.
Qed.

(** One more white-space character after a text goes through the scan
    of a string untouched. *)
Lemma scanstring_one s acc :
  scanstring (s ++ [y]) acc = extend [y] (scanstring s acc).
Proof. apply (scanstring_one_more (List.length s)). lia. Qed.

Lemma span_digits_one s :
  span_digits (s ++ [y])
  = (fst (span_digits s), snd (span_digits s) ++ [y]).
Proof.
  destruct (ws_facts y Hy) as (_ & _ & _ & _ & _ & F6 & _).
  induction s as [|c s IH]; simpl.
  - rewrite F6. reflexivity.
  - destruct (is_digit c); [|reflexivity].
    rewrite IH. destruct (span_digits s). reflexivity.
Qed.

End OneMore.

Lemma ws_number_facts y :
  is_ws y = true ->
  (y =? 45) = false /\ (y =? 48) = false /\ (y =? 46) = false
  /\ (y =? 43) = false /\ (y =? 101) = false /\ (y =? 69) = false
  /\ (y =? 125) = false /\ (y =? 123) = false /\ (y =? 44) = false
  /\ (y =? 58) = false /\ (y =? LBRACK) = false /\ (y =? RBRACK) = false
  /\ is_digit y = false.
Proof.
  intros H. destruct (ws_cases y H) as [-> | [-> | [-> | ->]]]; repeat split.
Qed.

Section OneMoreValue.

Variable y : char.
Hypothesis Hy : is_ws y = true.

Lemma integer_part_one s :
  integer_part (s ++ [y])
  = match integer_part s with
    | Some (neg, ds, r) => Some (neg, ds, r ++ [y])
    | None => None
    end.
Proof.
  destruct (ws_number_facts y Hy) as (N1 & N2 & _ & _ & _ & _ & _ & _ & _ & _ & _ & _ & N3).
  unfold integer_part. destruct s as [|c t]; cbn [app].
  - rewrite N1, N2, N3. reflexivity.
  - destruct (c =? 45).
    + destruct t as [|d t]; cbn [app].
      * rewrite N2, N3. reflexivity.
      * destruct (d =? 48); [reflexivity|].
        destruct (is_digit d); [|reflexivity].
        rewrite (span_digits_one y Hy). destruct (span_digits t). reflexivity.
    + destruct (c =? 48); [reflexivity|].
      destruct (is_digit c); [|reflexivity].
      rewrite (span_digits_one y Hy). destruct (span_digits t). reflexivity.
Qed.

Lemma fraction_part_one s :
  fraction_part (s ++ [y])
  = (fst (fraction_part s), snd (fraction_part s) ++ [y]).
Proof.
  destruct (ws_number_facts y Hy) as (_ & _ & _ & _ & _ & _ & _ & _ & _ & _ & _ & _ & N3).
  unfold fraction_part. destruct s as [|p [|d t]]; cbn [app].
  - reflexivity.
  - rewrite N3, andb_false_r. reflexivity.
  - destruct ((p =? 46) && is_digit d); [|reflexivity].
    rewrite (span_digits_one y Hy). destruct (span_digits t). reflexivity.
Qed.

Lemma exponent_part_one s :
  exponent_part (s ++ [y])
  = (fst (exponent_part s), snd (exponent_part s) ++ [y]).
Proof.
  destruct (ws_number_facts y Hy) as (N1 & _ & _ & N4 & N5 & N6 & _ & _ & _ & _ & _ & _ & N3).
  unfold exponent_part. destruct s as [|e t]; cbn [app].
  - rewrite N5, N6. reflexivity.
  - destruct ((e =? 101) || (e =? 69)); [|reflexivity].
    destruct t as [|g t]; cbn [app].
    + rewrite N1, N4. cbn [orb span_digits]. rewrite N3. reflexivity.
    + destruct ((g =? 45) || (g =? 43)).
      * rewrite (span_digits_one y Hy).
        destruct (span_digits t) as [[|d ds] r]; reflexivity.
      * change (g :: t ++ [y]) with ((g :: t) ++ [y]).
        rewrite (span_digits_one y Hy).
        destruct (span_digits (g :: t)) as [[|d ds] r]; reflexivity.
Qed.

Lemma match_number_one s :
  match_number (s ++ [y]) = extend [y] (match_number s).
Proof.
  unfold match_number. rewrite integer_part_one.
  destruct (integer_part s) as [[[neg ds] r]|]; [|reflexivity].
  rewrite fraction_part_one. destruct (fraction_part r) as [f r1].
  cbn [fst snd]. rewrite exponent_part_one.
  destruct (exponent_part r1) as [x r2]. cbn [fst snd].
  destruct f, x; try reflexivity.
  destruct (int_max_str_digits <? List.length ds)%nat; reflexivity.
Qed.

Lemma strip_prefix_one p :
  ~ In y p ->
  forall s, strip_prefix p (s ++ [y])
            = match strip_prefix p s with
              | Some r => Some (r ++ [y])
              | None => None
              end.
Proof.
  induction p as [|a p IH]; intros Hp s.
  - destruct s; reflexivity.
  - destruct s as [|b s]; cbn [app strip_prefix].
    + destruct (N.eqb_spec a y) as [->|_]; [elim Hp; left; reflexivity|].
      reflexivity.
    + destruct (a =? b); [|reflexivity]. apply IH. simpl in Hp. tauto.
Qed.

Lemma match_constant_one_gen cs :
  Forall (fun p => ~ In y (fst p)) cs ->
  forall s, match_constant cs (s ++ [y])
            = match match_constant cs s with
              | Some (v, r) => Some (v, r ++ [y])
              | None => None
              end.
Proof.
  induction 1 as [|[name v] cs Hn _ IH]; intros s; cbn [match_constant].
  - reflexivity.
  - rewrite (strip_prefix_one name Hn).
    destruct (strip_prefix name s); [reflexivity | apply IH].
Qed.

Lemma match_constant_one s :
  match_constant constants (s ++ [y])
  = match match_constant constants s with
    | Some (v, r) => Some (v, r ++ [y])
    | None => None
    end.
Proof.
  apply match_constant_one_gen.
  destruct (ws_cases y Hy) as [-> | [-> | [-> | ->]]];
    repeat constructor; simpl; intuition discriminate.
Qed.

Lemma skip_ws_one s :
  skip_ws (s ++ [y])
  = match skip_ws s with
    | [] => []
    | c :: r => c :: r ++ [y]
    end.
Proof.
  induction s as [|c s IH]; simpl.
  - rewrite Hy. reflexivity.
  - destruct (is_ws c); [exact IH | reflexivity].
Qed.

End OneMoreValue.

Lemma scan_once_nil n : exists e, scan_once n [] = Raise e.
Proof. destruct n; eexists; reflexivity. Qed.

Lemma array_items_nil n acc : exists e, array_items n [] acc = Raise e.
Proof.
  destruct n as [|n]; [eexists; reflexivity|]. cbn [array_items].
  destruct (scan_once_nil n) as [e ->]. eexists; reflexivity.
Qed.

Lemma object_items_nil n acc : exists e, object_items n [] acc = Raise e.
Proof. destruct n; eexists; reflexivity. Qed.

Section OneMoreDecoded.

Variable y : char.
Hypothesis Hy : is_ws y = true.

Lemma decoder_one_more n :
  (forall s, scan_once n (s ++ [y]) = extend [y] (scan_once n s))
  /\ (forall s acc,
         array_items n (s ++ [y]) acc = extend [y] (array_items n s acc))
  /\ (forall s acc,
         object_items n (s ++ [y]) acc = extend [y] (object_items n s acc)).
Proof.
  destruct (ws_facts y Hy) as (F1 & _).
  destruct (ws_number_facts y Hy)
    as (N1 & N2 & _ & _ & _ & _ & N7 & N8 & N9 & N10 & N11 & N12 & N3).
  induction n as [|n (IHs & IHa & IHo)]; [repeat split|].
  split; [|split].
  - intros [|c t]; cbn [app].
    + cbn [scan_once]. rewrite F1, N8, N11.
      change [y] with ([] ++ [y]) at 1 2.
      rewrite (match_constant_one y Hy), (match_number_one y Hy). reflexivity.
    + cbn [scan_once]. destruct (c =? DQ).
      { rewrite (scanstring_one y Hy).
        destruct (scanstring t []) as [[x r]|e]; reflexivity. }
      destruct (c =? 123).
      { rewrite (skip_ws_one y Hy). destruct (skip_ws t) as [|c' r]; [reflexivity|].
        destruct (c' =? 125); [reflexivity|]. apply (IHo (c' :: r)). }
      destruct (c =? LBRACK).
      { rewrite (skip_ws_one y Hy). destruct (skip_ws t) as [|c' r]; [reflexivity|].
        destruct (c' =? RBRACK); [reflexivity|]. apply (IHa (c' :: r)). }
      change (c :: t ++ [y]) with ((c :: t) ++ [y]).
      rewrite (match_constant_one y Hy).
      destruct (match_constant constants (c :: t)) as [[v r]|]; [reflexivity|].
      apply (match_number_one y Hy).
  - intros s acc. cbn [array_items]. rewrite IHs.
    destruct (scan_once n s) as [[v r]|e]; [|reflexivity]. cbn [extend].
    rewrite (skip_ws_one y Hy). destruct (skip_ws r) as [|c r']; [reflexivity|].
    destruct (c =? RBRACK); [reflexivity|].
    destruct (c =? 44); [|reflexivity].
    rewrite (skip_ws_one y Hy). destruct (skip_ws r') as [|c' r''].
    + destruct (array_items_nil n (v :: acc)) as [e ->]. reflexivity.
    + apply (IHa (c' :: r'')).
  - intros [|c t] acc; cbn [app object_items].
    + rewrite F1. reflexivity.
    + destruct (c =? DQ); [|reflexivity].
      rewrite (scanstring_one y Hy).
      destruct (scanstring t []) as [[k r]|e]; [|reflexivity]. cbn [extend].
      rewrite (skip_ws_one y Hy). destruct (skip_ws r) as [|c1 r1]; [reflexivity|].
      destruct (c1 =? 58); [|reflexivity].
      rewrite (skip_ws_one y Hy). destruct (skip_ws r1) as [|c2 r2].
      * destruct (scan_once_nil n) as [e ->]. reflexivity.
      * change (c2 :: r2 ++ [y]) with ((c2 :: r2) ++ [y]).
        rewrite (IHs (c2 :: r2)).
        destruct (scan_once n (c2 :: r2)) as [[v r3]|e]; [|reflexivity].
        cbn [extend]. rewrite (skip_ws_one y Hy).
        destruct (skip_ws r3) as [|c3 r4]; [reflexivity|].
        destruct (c3 =? 125); [reflexivity|].
        destruct (c3 =? 44); [|reflexivity].
        rewrite (skip_ws_one y Hy). destruct (skip_ws r4) as [|c4 r5].
        -- destruct (object_items_nil n (dict_set acc k v)) as [e ->].
           reflexivity.
        -- apply (IHo (c4 :: r5)).
Qed.

End OneMoreDecoded.

Lemma extend_nil {A} (r : result (A * pystr)) : extend [] r = r.
Proof. destruct r as [[v rest]|e]; simpl; [rewrite app_nil_r|]; reflexivity. Qed.

Lemma extend_extend {A} y w (r : result (A * pystr)) :
  extend w (extend [y] r) = extend (y :: w) r.
Proof.
  destruct r as [[v rest]|e]; simpl; [rewrite <- app_assoc|]; reflexivity.
Qed.

(** White space after a text goes through the scan of a value
    untouched. *)
Lemma scan_once_padded n w :
  json_space w -> forall s, scan_once n (s ++ w) = extend w (scan_once n s).
Proof.
  induction 1 as [|y w Hy _ IH]; intros s.
  - rewrite app_nil_r, extend_nil. reflexivity.
  - change (y :: w) with ([y] ++ w). rewrite app_assoc, IH.
    rewrite (proj1 (decoder_one_more y Hy n)). apply extend_extend.
Qed.

Lemma skip_ws_space w : json_space w -> forall s, skip_ws (w ++ s) = skip_ws s.
Proof.
  induction 1 as [|y w Hy _ IH]; intros s; simpl; [reflexivity|].
  rewrite Hy. apply IH.
Qed.

Lemma skip_ws_padded w :
  json_space w ->
  forall s, skip_ws (s ++ w)
            = match skip_ws s with
              | [] => []
              | c :: r => c :: r ++ w
              end.
Proof.
  intros Hw. induction s as [|c s IH]; simpl.
  - rewrite <- (app_nil_r w), (skip_ws_space w Hw). reflexivity.
  - destruct (is_ws c); [exact IH | reflexivity].
Qed.

(** More fuel than needed changes nothing. *)
Lemma decoder_fuel_step n :
  (forall s, scan_once n s <> Raise RecursionError ->
             scan_once (S n) s = scan_once n s)
  /\ (forall s acc, array_items n s acc <> Raise RecursionError ->
                    array_items (S n) s acc = array_items n s acc)
  /\ (forall s acc, object_items n s acc <> Raise RecursionError ->
                    object_items (S n) s acc = object_items n s acc).
Proof.
  induction n as [|n (IHs & IHa & IHo)].
  - repeat split; intros; exfalso; auto.
  - split; [|split].
    + intros [|c t] H; [reflexivity|].
      revert H. cbn [scan_once].
      destruct (c =? DQ); [reflexivity|].
      destruct (c =? 123).
      { destruct (skip_ws t) as [|c' r]; [reflexivity|].
        destruct (c' =? 125); [reflexivity|]. apply IHo. }
      destruct (c =? LBRACK).
      { destruct (skip_ws t) as [|c' r]; [reflexivity|].
        destruct (c' =? RBRACK); [reflexivity|]. apply IHa. }
      reflexivity.
    + intros s acc. cbn [array_items].
      destruct (scan_once n s) as [[v r]|e] eqn:E.
      * rewrite IHs, E by (rewrite E; discriminate).
        destruct (skip_ws r) as [|c r']; [reflexivity|].
        destruct (c =? RBRACK); [reflexivity|].
        destruct (c =? 44); [|reflexivity]. apply IHa.
      * intros H. rewrite IHs, E by congruence. reflexivity.
    + intros [|c t] acc; [reflexivity|]. cbn [object_items].
      destruct (c =? DQ); [|reflexivity].
      destruct (scanstring t []) as [[k r]|e]; [|reflexivity].
      destruct (skip_ws r) as [|c1 r1]; [reflexivity|].
      destruct (c1 =? 58); [|reflexivity].
      destruct (scan_once n (skip_ws r1)) as [[v r2]|e] eqn:E.
      * rewrite IHs, E by (rewrite E; discriminate).
        destruct (skip_ws r2) as [|c2 r3]; [reflexivity|].
        destruct (c2 =? 125); [reflexivity|].
        destruct (c2 =? 44); [|reflexivity]. apply IHo.
      * intros H. rewrite IHs, E by congruence. reflexivity.
Qed.

Lemma scan_once_fuel n m s :
  (2 * List.length s < n)%nat -> (n <= m)%nat -> scan_once m s = scan_once n s.
Proof.
  intros Hn Hm. induction Hm as [|m Hm IH]; [reflexivity|].
  rewrite <- IH. apply (proj1 (decoder_fuel_step m)).
  rewrite IH. pose proof (proj1 (decoder_fuel n) s Hn) as H.
  destruct (scan_once n s) as [[v r]|e]; [discriminate|].
  simpl in H. congruence.
Qed.

(** White space before and after a text does not change what it decodes
    to. *)
Lemma decode_padded w1 w2 s :
  json_space w1 -> json_space w2 -> decode (w1 ++ s ++ w2) = decode s.
Proof.
  intros H1 H2. unfold decode.
  rewrite (skip_ws_space w1 H1), (skip_ws_padded w2 H2).
  pose proof (skip_ws_length s) as L.
  destruct (skip_ws s) as [|c r] eqn:E.
  - replace (2 * List.length (w1 ++ s ++ w2) + 1)%nat
      with (S (2 * List.length (w1 ++ s ++ w2))) by lia.
    replace (2 * List.length s + 1)%nat with (S (2 * List.length s)) by lia.
    reflexivity.
  - change (c :: r ++ w2) with ((c :: r) ++ w2).
    rewrite (scan_once_padded _ w2 H2).
    rewrite (scan_once_fuel (2 * List.length s + 1)
               (2 * List.length (w1 ++ s ++ w2) + 1) (c :: r))
      by (rewrite ?length_app; lia).
    destruct (scan_once (2 * List.length s + 1) (c :: r)) as [[v r']|e];
      [|reflexivity].
    cbn [extend]. rewrite (skip_ws_padded w2 H2).
    destruct (skip_ws r'); reflexivity.
Qed.

Lemma decode_bom t : decode (65279 :: t) = Raise JSONDecodeError.
Proof.
  unfold decode. rewrite Nat.add_1_r.
  change (skip_ws (65279 :: t)) with (65279 :: t).
  rewrite scan_once_no_start by reflexivity. reflexivity.
Qed.

Lemma json_loads_padded w1 w2 s :
  json_space w1 -> json_space w2 ->
  json_loads (PStr (w1 ++ s ++ w2)) = json_loads (PStr s).
Proof.
  intros H1 H2.
  assert (json_loads (PStr s) = decode s) as ->.
  { simpl. destruct s as [|c t]; [reflexivity|].
    destruct (N.eqb_spec c 65279) as [->|_]; [|reflexivity].
    symmetry. apply decode_bom. }
  rewrite <- (decode_padded w1 w2 s H1 H2).
  assert (forall y x, is_ws y = true ->
                      json_loads (PStr (y :: x)) = decode (y :: x)) as Hws.
  { intros y x Hy. simpl.
    destruct (ws_cases y Hy) as [-> | [-> | [-> | ->]]]; reflexivity. }
  destruct H1 as [|y w1 Hy H1]; [|apply Hws, Hy].
  cbn [app]. destruct s as [|c t]; cbn [app].
  - destruct H2 as [|y w2 Hy H2]; [reflexivity | apply Hws, Hy].
  - simpl. destruct (N.eqb_spec c 65279) as [->|_]; [|reflexivity].
    symmetry. apply decode_bom.
Qed.

Section PaddingExtras.

Variable World : Type.
Variable create : model -> list message -> World -> result pystr * World.

(** X15: JSON white space (spaces, tabs, line feeds, carriage returns)
    around the answer makes no difference: when the answer is a text
    [s] with such white space before and after it, [get_search_terms]
    returns a value exactly when [s] alone parses to a string, an object
    or an array of strings, and it returns that value. *)
Theorem get_search_terms_padded_answer
    video_subject amount script st w1 s w2 v :
  fst (create gpt_35_turbo_16k_0613
         (user (search_terms_prompt video_subject amount script))
         (service st)) = Ok (w1 ++ s ++ w2) ->
  json_space w1 -> json_space w2 ->
  fst (get_search_terms World create video_subject amount script st) = Ok v
  <-> json_loads (PStr s) = Ok v /\ joinable v = true.
Proof.
  intros H H1 H2.
  rewrite (get_search_terms_run _ _ _ _ _ _ _ H).
  rewrite (json_loads_padded w1 w2 s H1 H2).
  destruct (json_loads (PStr s)) as [v'|e].
  - destruct (joinable v') eqn:J.
    + destruct (str_join_joinable (str ", ") v' J) as [r ->].
      split; [intros [= <-]; auto | intros [[= <-] _]; reflexivity].
    + rewrite (str_join_not_joinable _ _ J).
      split; [discriminate | intros [[= <-] J']; congruence].
  - split; [discriminate | intros [E _]; discriminate E].
Qed.

End PaddingExtras.

(** ** Concrete runs *)

(** X1 when the service is out of answers. *)
Lemma generate_script_service_raises_witness :
  generate_script _ replay (str "cats") (fresh [])
  = (Raise (ServiceError (str "no answer left")), fresh []).
Proof.
  apply (generate_script_service_raises _ replay (str "cats") (fresh [])).
  reflexivity.
Defined.

(** X2 on an answer with emphasis marks and a bracketed note. *)
Lemma generate_script_only_erases_witness :
  exists response t,
    fst (replay gpt_35_turbo_16k_0613 (user (script_prompt (str "cats")))
           [Ok (str "a *b* [c]")]) = Ok response
    /\ str "a b  " = t ++ [SPACE] /\ erased t response.
Proof.
  apply (generate_script_only_erases _ replay (str "cats")
           (fresh [Ok (str "a *b* [c]")]) (str "a b  ")).
  reflexivity.
Defined.

(** X3 on an answer of two lines. *)
Lemma generate_script_keeps_lines_witness :
  let response := str "[a]" ++ NL :: str "(b) c" in
  let s := NL :: str " c " in
  count_occ N.eq_dec s NL = count_occ N.eq_dec response NL
  /\ (List.length s <= List.length response + 1)%nat.
Proof.
  intros response s.
  apply (generate_script_keeps_lines _ replay (str "cats")
           (fresh [Ok response]) response [] s); reflexivity.
Defined.

(** X4 on an answer with brackets on two lines. *)
Lemma generate_script_no_span_left_witness :
  let s := str "x] " ++ NL :: str " [y " in
  ~ bracketed LBRACK RBRACK s /\ ~ bracketed LPAREN RPAREN s.
Proof.
  intros s.
  apply (generate_script_no_span_left _ replay (str "cats")
           (fresh [Ok (str "x] [a]" ++ NL :: str "(b) [y")]) s).
  reflexivity.
Defined.

(** X5 on a plain sentence. *)
Lemma generate_script_clean_answer_witness :
  fst (generate_script _ replay (str "cats")
         (fresh [Ok (str "Cats sleep ] a lot [.")]))
  = Ok (Some (str "Cats sleep ] a lot [. ")).
Proof.
  apply (generate_script_clean_answer _ replay (str "cats")
           (fresh [Ok (str "Cats sleep ] a lot [.")])
           (str "Cats sleep ] a lot [.") []).
  - reflexivity.
  - discriminate.
  - simpl. intuition discriminate.
  - simpl. intuition discriminate.
  - apply spans_not_bracketed; [discriminate | discriminate | reflexivity].
  - apply spans_not_bracketed; [discriminate | discriminate | reflexivity].
Defined.

(** X7 on an answer that is a JSON object: the run returns a
    dictionary. *)
Lemma get_search_terms_returns_iff_witness :
  let response := str "{" ++ quoted (str "terms") ++ str ": []}" in
  fst (get_search_terms _ replay (str "cats") 2 (str "A script.")
         (fresh [Ok response]))
  = Ok (PDict [(str "terms", PList [])]).
Proof.
  intros response.
  apply (proj2 (get_search_terms_returns_iff _ replay (str "cats") 2
                  (str "A script.") (fresh [Ok response]) response
                  (PDict [(str "terms", PList [])]) eq_refl)).
  split; reflexivity.
Defined.

(** X8 on the answer null: the parse succeeds, the join fails. *)
Lemma get_search_terms_raises_type_error_witness :
  fst (get_search_terms _ replay (str "cats") 2 (str "A script.")
         (fresh [Ok (str "null")])) = Raise TypeError
  /\ TypeError = TypeError.
Proof.
  split; [reflexivity|].
  apply (get_search_terms_raises_type_error _ replay (str "cats") 2
           (str "A script.") (fresh [Ok (str "null")]) (str "null") TypeError);
    reflexivity.
Defined.

(** X9 on an answer that opens with a code fence. *)
Lemma get_search_terms_prose_raises_witness :
  let response := str "```json" ++ NL :: str "[]" ++ NL :: str "```" in
  fst (get_search_terms _ replay (str "cats") 2 (str "A script.")
         (fresh [Ok response]))
  = Raise TypeError.
Proof.
  intros response.
  apply (get_search_terms_prose_raises _ replay (str "cats") 2
           (str "A script.") (fresh [Ok response]) response); reflexivity.
Defined.

(** X10 on an answer without bracket: both notices are printed. *)
Lemma get_search_terms_fallback_trace_witness :
  snd (get_search_terms _ replay (str "cats") 2 (str "A script.")
         (fresh [Ok (str "No idea.")]))
  = {| service := [];
       stdout :=
         [ {| text := str "[*] GPT returned an unformatted response. Attempting to clean...";
              shade := yellow |};
           {| text := str "[-] Could not parse response."; shade := red |} ] |}.
Proof.
  apply (get_search_terms_fallback_trace _ replay (str "cats") 2
           (str "A script.") (fresh [Ok (str "No idea.")]) (str "No idea.")
           [] JSONDecodeError); reflexivity.
Defined.

(** X11 on three prepared answers. *)
Lemma generate_metadata_trimmed_witness :
  trimmed (str "Cats!") /\ trimmed (str "All about cats.").
Proof.
  apply (generate_metadata_trimmed _ replay (str "cats") (str "A script.")
           (fresh [Ok (str "  Cats! "); Ok (NL :: str "All about cats.");
                   Ok (str "[]")])
           (str "Cats!") (str "All about cats.") (PList [])).
  reflexivity.
Defined.

(** X12 on the same answers. *)
Lemma generate_metadata_only_trims_witness :
  (exists l r, str "  Cats! " = l ++ str "Cats!" ++ r
               /\ all_space l /\ all_space r)
  /\ (exists l r, NL :: str "All about cats." = l ++ str "All about cats." ++ r
                  /\ all_space l /\ all_space r).
Proof.
  apply (generate_metadata_only_trims _ replay (str "cats") (str "A script.")
           (fresh [Ok (str "  Cats! "); Ok (NL :: str "All about cats.");
                   Ok (str "[]")])
           (str "  Cats! ")
           [Ok (NL :: str "All about cats."); Ok (str "[]")]
           (NL :: str "All about cats.") [Ok (str "[]")]
           (str "Cats!") (str "All about cats.") (PList []));
    reflexivity.
Defined.

(** X13 when the third answer is prose. *)
Lemma generate_metadata_keywords_unparsed_witness :
  fst (generate_metadata _ replay (str "cats") (str "A script.")
         (fresh [Ok (str "Cats!"); Ok (str "All about cats.");
                 Ok (str "Here are your keywords")]))
  = Raise TypeError.
Proof.
  apply (generate_metadata_keywords_unparsed _ replay (str "cats")
           (str "A script.")
           (fresh [Ok (str "Cats!"); Ok (str "All about cats.");
                   Ok (str "Here are your keywords")])
           (str "Cats!")
           [Ok (str "All about cats."); Ok (str "Here are your keywords")]
           (str "All about cats.") [Ok (str "Here are your keywords")]
           (str "Here are your keywords") JSONDecodeError); reflexivity.
Defined.

(** X14 on a term with a quote and a line feed in it. *)
Lemma get_search_terms_round_trip_witness :
  let terms := [str "cat"; DQ :: str "big" ++ [DQ; NL] ++ str "cats"] in
  fst (get_search_terms _ replay (str "cats") 2 (str "A script.")
         (fresh [Ok (json_array terms)]))
  = Ok (PList (map PStr terms)).
Proof.
  intros terms.
  apply (get_search_terms_round_trip _ replay (str "cats") 2
           (str "A script.") (fresh [Ok (json_array terms)]) terms).
  reflexivity.
Defined.

(** X15 on an array with a line feed before it and a space and a line
    feed after it. *)
Lemma get_search_terms_padded_answer_witness :
  let s := str "[" ++ quoted (str "cat") ++ str "]" in
  fst (get_search_terms _ replay (str "cats") 2 (str "A script.")
         (fresh [Ok ([NL] ++ s ++ [SPACE; NL])]))
  = Ok (PList [PStr (str "cat")]).
Proof.
  intros s.
  apply (proj2 (get_search_terms_padded_answer _ replay (str "cats") 2
                  (str "A script.")
                  (fresh [Ok ([NL] ++ s ++ [SPACE; NL])])
                  [NL] s [SPACE; NL] (PList [PStr (str "cat")])
                  eq_refl
                  ltac:(repeat constructor) ltac:(repeat constructor))).
  split; reflexivity.
Defined.
